(** * The Snake game state machines of [snake-game-chatgpt] and [snake-game-agent]

    Both React components [SnakeGame.jsx] are embedded as pure state
    transformers: one Rocq record per component instance (React state, refs and
    the [localStorage] entry of the high score), one function per handler.

    - Coordinates and scores are JavaScript integers, modelled as [Z]; the
      speed of snake-game-chatgpt, a multiple of 0.5, is a rational.
    - [Math.random()] is an input of the handlers that draw from it: a rational
      of [[0,1)].  The IEEE rounding of the product [Math.random() * n] is not
      modelled; the index [Math.floor (Math.random() * n)] is the exact floor.
      On a draw within one rounding of a boundary [i/n] the code reads the
      index next to this one, so no theorem below characterises the draws
      that give an index: the properties rely on the index being inside the
      array.
    - A state update, the re-render it causes and the effects of that
      re-render are one atomic step; updater functions and effects run once
      (the double invocations of React's development StrictMode are not
      modelled).
    - A handler reads the state of the render that created it.  In
      snake-game-chatgpt that is always the current state: the dependency
      lists of its effects name every state value their handlers read, except
      [score], which only changes together with [snake] or [dir].  In
      snake-game-agent the animation loop is installed by an effect whose
      dependency list is [[running]]: the values of [score] and [highScore]
      it closes over are fields of the state, refreshed when [running]
      changes.
    - The timers themselves are left out: a tick is an event.  Of the
      rendering, the [fillRect] calls on the canvas are modelled (as the list
      of fills in painting order), with the cell size chosen on resize; the
      strokes of the grid lines and the markup are not.  Key and touch events
      are decoded from [e.key] and from the pixel coordinates of the touch.

    The definitions come first (shared data, the two components, painting and
    input decoding, runs, invariants, sample inputs), then the properties. *)

From Stdlib Require Import ZArith QArith Qround Lia List Ascii Floats Uint63.
From stdpp Require Import base option list list_numbers strings pretty gmap sets.
Import ListNotations.

Local Open Scope Z_scope.

(** ** Shared data: cells, random draws, the persisted entry *)

(** The objects [{x, y}] used for cells, directions and velocities. *)
Record Point := { x : Z; y : Z }.

#[global] Instance Point_eq_dec : EqDecision Point.
Proof. solve_decision. Defined.

(** [s.x === h.x && s.y === h.y] *)
Definition same_cell (s h : Point) : bool := (x s =? x h) && (y s =? y h).

(** [a.x + b.x === 0 && a.y + b.y === 0]: [b] is the exact negation of [a]. *)
Definition opposite (a b : Point) : bool := (x a + x b =? 0) && (y a + y b =? 0).

Definition negate (d : Point) : Point := {| x := - x d; y := - y d |}.

(** A value returned by [Math.random()]: a number of [[0,1)]. *)
Record Random := {
  rnd : Q;
  rnd_range : Qle_bool 0 rnd && negb (Qle_bool 1 rnd) = true
}.

(** [Math.floor(Math.random() * n)] *)
Definition random_below (r : Random) (n : Z) : Z := Qfloor (rnd r * inject_Z n).

(** The [localStorage] entry that holds the high score: its current content
    ([None] when the key is absent, otherwise the integer whose decimal
    rendering is stored) and the number of [setItem] calls made on it. *)
Record Storage := { stored : option Z; setItem_calls : nat }.

(** [localStorage.setItem(key, String(v))] *)
Definition setItem (v : Z) (st : Storage) : Storage :=
  {| stored := Some v; setItem_calls := S (setItem_calls st) |}.

(** [Number(localStorage.getItem(key) || 0)], and
    [parseInt(localStorage.getItem(key) || '0', 10)] on a stored integer. *)
Definition getItem_or_0 (st : Storage) : Z := default 0 (stored st).

(** [arr.pop()] as used on the moved snake: the array without its last cell. *)
Definition pop (l : list Point) : list Point := removelast l.
Arguments pop : simpl never.

(** ** snake-game-chatgpt/src/components/SnakeGame.jsx *)
Module ChatGPT.

Definition GRID_ROWS : Z := 20.
Definition GRID_COLS : Z := 20.
Definition INITIAL_SPEED : Q := 6.
Definition SPEED_INCREASE : Q := 1 # 2.
Definition INITIAL_SNAKE : list Point :=
  [ {| x := 9; y := 9 |}; {| x := 8; y := 9 |}; {| x := 7; y := 9 |} ].

(** [function mod(n, m) { return ((n % m) + m) % m }]; JavaScript's [%] takes
    the sign of the dividend ([Z.rem]). *)
Definition mod_ (n m : Z) : Z := Z.rem (Z.rem n m + m) m.

(** The key [`${s.x},${s.y}`] of a cell: the decimal renderings of the two
    integers, separated by a comma. *)
Definition key (s : Point) : string := pretty (x s) +:+ "," +:+ pretty (y s).

(** [new Set(snakeArr.map((s) => `${s.x},${s.y}`))] *)
Definition occupied (snakeArr : list Point) : gset string :=
  list_to_set (key <$> snakeArr).

(** The two nested [for] loops of [placeFood], in their visiting order. *)
Definition grid : list Point :=
  cx ← seqZ 0 GRID_COLS; cy ← seqZ 0 GRID_ROWS; [ {| x := cx; y := cy |} ].

(** The array [free] at the end of the loops. *)
Definition free (snakeArr : list Point) : list Point :=
  filter (λ c, key c ∉ occupied snakeArr) grid.

(** [placeFood(snakeArr)], drawing [r] from [Math.random()].  An index past the
    end of [free] would read [undefined]; [free_index_in_range] shows that no
    draw gives one, so the last branch is never taken. *)
Definition placeFood (r : Random) (snakeArr : list Point) : Point :=
  let fr := free snakeArr in
  if Z.of_nat (length fr) =? 0 then {| x := 0; y := 0 |}
  else match fr !! Z.to_nat (random_below r (Z.of_nat (length fr))) with
       | Some c => c
       | None => {| x := 0; y := 0 |}
       end.

(** The component's state hooks and the persisted entry ['snake_highscore'].
    [dir] is created as an object and every [setDir] passes one, so it is never
    [null]; [nextDir] is [null] ([None]) or a queued direction. *)
Record State := {
  snake : list Point;
  dir : Point;
  nextDir : option Point;
  food : Point;
  speed : Q;
  running : bool;
  score : Z;
  highScore : Z;
  localStorage : Storage
}.

(** First render: the [useState] initialisers. *)
Definition init (r : Random) (st : Storage) : State :=
  {| snake := INITIAL_SNAKE;
     dir := {| x := 1; y := 0 |};
     nextDir := None;
     food := placeFood r INITIAL_SNAKE;
     speed := INITIAL_SPEED;
     running := true;
     score := 0;
     highScore := getItem_or_0 st;
     localStorage := st |}.

(** [trySetDir(newDir)].  The guard [if (!dir)] never fires ([dir] is an
    object). *)
Definition trySetDir (newDir : Point) (s : State) : State :=
  if opposite (dir s) newDir then s
  else {| snake := snake s; dir := dir s; nextDir := Some newDir;
          food := food s; speed := speed s; running := running s;
          score := score s; highScore := highScore s;
          localStorage := localStorage s |}.

(** [const currentDir = nextDir || dir] *)
Definition currentDir (s : State) : Point := default (dir s) (nextDir s).

(** [newHead] of [tick] for the head cell [head = prev[0]]. *)
Definition newHead (head : Point) (s : State) : Point :=
  {| x := mod_ (x head + x (currentDir s)) GRID_COLS;
     y := mod_ (y head + y (currentDir s)) GRID_ROWS |}.

(** [prev.some((s) => s.x === newHead.x && s.y === newHead.y)] *)
Definition hits (prev : list Point) (h : Point) : bool :=
  existsb (λ s, same_cell s h) prev.

(** [handleGameOver()]: [setRunning(false)], then the high score becomes
    [Math.max(hs, score)] and is stored unconditionally. *)
Definition handleGameOver (s : State) : State :=
  let newHS := Z.max (highScore s) (score s) in
  {| snake := snake s; dir := dir s; nextDir := nextDir s;
     food := food s; speed := speed s; running := false;
     score := score s; highScore := newHS;
     localStorage := setItem newHS (localStorage s) |}.

(** The first statements of the updater in [tick]:
    [if (nextDir) setDir(nextDir); setNextDir(null)]. *)
Definition applyQueuedDir (s : State) : State :=
  {| snake := snake s; dir := currentDir s; nextDir := None;
     food := food s; speed := speed s; running := running s;
     score := score s; highScore := highScore s;
     localStorage := localStorage s |}.

(** [tick()], with [r] the draw [placeFood] makes when the snake eats.  The
    result is [None] when the snake array is empty: [prev[0]] is [undefined]
    and reading [head.x] throws. *)
Definition tick (r : Random) (s : State) : option State :=
  match snake s with
  | [] => None
  | head :: _ =>
    let prev := snake s in
    let h := newHead head s in
    let s1 := applyQueuedDir s in
    if hits prev h then Some (handleGameOver s1)
    else if same_cell h (food s) then
      Some {| snake := h :: prev; dir := dir s1; nextDir := None;
              food := placeFood r (h :: prev);
              speed := (speed s + SPEED_INCREASE)%Q; running := running s;
              score := score s + 1; highScore := highScore s;
              localStorage := localStorage s |}
    else
      Some {| snake := pop (h :: prev); dir := dir s1; nextDir := None;
              food := food s; speed := speed s; running := running s;
              score := score s; highScore := highScore s;
              localStorage := localStorage s |}
  end.

(** [toggleRunning()] *)
Definition toggleRunning (s : State) : State :=
  {| snake := snake s; dir := dir s; nextDir := nextDir s;
     food := food s; speed := speed s; running := negb (running s);
     score := score s; highScore := highScore s;
     localStorage := localStorage s |}.

(** [resetGame()] *)
Definition resetGame (r : Random) (s : State) : State :=
  {| snake := INITIAL_SNAKE;
     dir := {| x := 1; y := 0 |};
     nextDir := None;
     food := placeFood r INITIAL_SNAKE;
     speed := INITIAL_SPEED;
     running := true;
     score := 0;
     highScore := highScore s;
     localStorage := localStorage s |}.

(** The keys [onKey] distinguishes ([w], [a], [s], [d] in either case count as
    the arrows they duplicate); every other key is [OtherKey]. *)
Inductive Key := ArrowUp | ArrowDown | ArrowLeft | ArrowRight | Space | KeyR | OtherKey.

(** The four swipes [touchEnd] tells apart. *)
Inductive Swipe := SwipeRight | SwipeLeft | SwipeDown | SwipeUp.

(** [onKey(e)]; [r] is the draw of [resetGame]. *)
Definition onKey (k : Key) (r : Random) (s : State) : State :=
  match k with
  | ArrowUp => trySetDir {| x := 0; y := -1 |} s
  | ArrowDown => trySetDir {| x := 0; y := 1 |} s
  | ArrowLeft => trySetDir {| x := -1; y := 0 |} s
  | ArrowRight => trySetDir {| x := 1; y := 0 |} s
  | Space => toggleRunning s
  | KeyR => resetGame r s
  | OtherKey => s
  end.

(** [touchEnd(e)] for a swipe of at least 20 pixels. *)
Definition touchEnd (w : Swipe) (s : State) : State :=
  match w with
  | SwipeRight => trySetDir {| x := 1; y := 0 |} s
  | SwipeLeft => trySetDir {| x := -1; y := 0 |} s
  | SwipeDown => trySetDir {| x := 0; y := 1 |} s
  | SwipeUp => trySetDir {| x := 0; y := -1 |} s
  end.

(** The events of the component.  The interval that calls [tick] exists only
    while [running] holds. *)
Inductive Event :=
| ETick (r : Random)
| EKey (k : Key) (r : Random)
| ETouch (w : Swipe)
| EPauseButton
| ERestartButton (r : Random).

Definition step (e : Event) (s : State) : option State :=
  match e with
  | ETick r => if running s then tick r s else Some s
  | EKey k r => Some (onKey k r s)
  | ETouch w => Some (touchEnd w s)
  | EPauseButton => Some (toggleRunning s)
  | ERestartButton r => Some (resetGame r s)
  end.

(** The states a mounted component goes through. *)
Inductive reachable : State → Prop :=
| reachable_init r st : reachable (init r st)
| reachable_step e s s' : reachable s → step e s = Some s' → reachable s'.

End ChatGPT.

(** ** snake-game-agent/src/components/SnakeGame.jsx *)
Module Agent.

Definition CANVAS_SIZE : Z := 400.
Definition SCALE : Z := 20.
Definition ROWS : Z := CANVAS_SIZE / SCALE.

(** The keys [handleKey] distinguishes; every other key is [OtherKey]. *)
Inductive Key := ArrowUp | ArrowDown | ArrowLeft | ArrowRight | Space | OtherKey.

(** The component's state hooks ([score], [highScore], [running]), its refs,
    the values of [score] and [highScore] that the [update] called by the
    animation loop closes over, and the entry ['snake_high_score'].

    The loop is installed by an effect with dependency list [[running]]: it
    keeps calling the [update] of the render in which [running] last changed,
    so [loop_score] and [loop_highScore] are refreshed only then. *)
Record State := {
  score : Z;
  scoreRef : Z;
  highScore : Z;
  running : bool;
  velocityRef : Point;
  snakeRef : list Point;
  appleRef : Point;
  speedRef : Z;
  loop_score : Z;
  loop_highScore : Z;
  localStorage : Storage
}.

(** [randomApple()]: two draws, [x] first. *)
Definition randomApple (rx ry : Random) : Point :=
  {| x := random_below rx ROWS; y := random_below ry ROWS |}.

(** [reset()] *)
Definition reset (rx ry : Random) (s : State) : State :=
  {| score := 0;
     scoreRef := 0;
     highScore := highScore s;
     running := true;
     velocityRef := {| x := 1; y := 0 |};
     snakeRef := [ {| x := 10; y := 10 |} ];
     appleRef := randomApple rx ry;
     speedRef := 8;
     loop_score := loop_score s;
     loop_highScore := loop_highScore s;
     localStorage := localStorage s |}.

(** The block that precedes both calls of [reset()]:
    [const current = scoreRef.current || score;
     if (current > highScore) { setHighScore(current); localStorage.setItem(..) }]
    where [score] and [highScore] are the values the enclosing closure sees. *)
Definition saveHighScore (score_seen highScore_seen : Z) (s : State) : State :=
  let current := if scoreRef s =? 0 then score_seen else scoreRef s in
  if current >? highScore_seen then
    {| score := score s; scoreRef := scoreRef s; highScore := current;
       running := running s; velocityRef := velocityRef s;
       snakeRef := snakeRef s; appleRef := appleRef s; speedRef := speedRef s;
       loop_score := loop_score s; loop_highScore := loop_highScore s;
       localStorage := setItem current (localStorage s) |}
  else s.

(** The four wrap-around tests of [update] on one coordinate:
    [if (n < 0) n = ROWS - 1; if (n >= ROWS) n = 0]. *)
Definition wrap (n : Z) : Z :=
  let n1 := if n <? 0 then ROWS - 1 else n in
  if n1 >=? ROWS then 0 else n1.

(** [head] of [update] after the moves and the wrap-around tests, for the
    first cell [h] of the snake. *)
Definition newHead (h : Point) (s : State) : Point :=
  {| x := wrap (x h + x (velocityRef s)); y := wrap (y h + y (velocityRef s)) |}.

(** The [for (let part of snakeRef.current)] loop: whether some part equals
    [head]. *)
Definition hits (parts : list Point) (h : Point) : bool :=
  existsb (λ part, same_cell part h) parts.

(** The game-over branch of [update]: the high score is compared through the
    loop's closure, then the game is reset. *)
Definition gameOver (rx ry : Random) (s : State) : State :=
  reset rx ry (saveHighScore (loop_score s) (loop_highScore s) s).

(** [update()], with [rx], [ry] the draws of [randomApple].  [None] stands for
    an empty snake array, on which the head has no integer coordinates. *)
Definition update (rx ry : Random) (s : State) : option State :=
  match snakeRef s with
  | [] => None
  | h0 :: _ =>
    let h := newHead h0 s in
    if hits (snakeRef s) h then Some (gameOver rx ry s)
    else if same_cell h (appleRef s) then
      let next := score s + 1 in
      Some {| score := next; scoreRef := next; highScore := highScore s;
              running := running s; velocityRef := velocityRef s;
              snakeRef := h :: snakeRef s;
              appleRef := randomApple rx ry;
              speedRef := 8 + next / 5;
              loop_score := loop_score s; loop_highScore := loop_highScore s;
              localStorage := localStorage s |}
    else
      Some {| score := score s; scoreRef := scoreRef s; highScore := highScore s;
              running := running s; velocityRef := velocityRef s;
              snakeRef := pop (h :: snakeRef s);
              appleRef := appleRef s; speedRef := speedRef s;
              loop_score := loop_score s; loop_highScore := loop_highScore s;
              localStorage := localStorage s |}
  end.

Definition set_velocity (v : Point) (s : State) : State :=
  {| score := score s; scoreRef := scoreRef s; highScore := highScore s;
     running := running s; velocityRef := v; snakeRef := snakeRef s;
     appleRef := appleRef s; speedRef := speedRef s;
     loop_score := loop_score s; loop_highScore := loop_highScore s;
     localStorage := localStorage s |}.

(** [setRunning(r => !r)] *)
Definition toggleRunning (s : State) : State :=
  {| score := score s; scoreRef := scoreRef s; highScore := highScore s;
     running := negb (running s); velocityRef := velocityRef s;
     snakeRef := snakeRef s; appleRef := appleRef s; speedRef := speedRef s;
     loop_score := loop_score s; loop_highScore := loop_highScore s;
     localStorage := localStorage s |}.

(** [handleKey(e)]: [v] is read once, then at most one test matches the key. *)
Definition handleKey (k : Key) (s : State) : State :=
  let v := velocityRef s in
  match k with
  | ArrowUp => if negb (y v =? 1) then set_velocity {| x := 0; y := -1 |} s else s
  | ArrowDown => if negb (y v =? -1) then set_velocity {| x := 0; y := 1 |} s else s
  | ArrowLeft => if negb (x v =? 1) then set_velocity {| x := -1; y := 0 |} s else s
  | ArrowRight => if negb (x v =? -1) then set_velocity {| x := 1; y := 0 |} s else s
  | Space => toggleRunning s
  | OtherKey => s
  end.

(** The Restart button's [onClick]: the handler of the current render, so it
    sees the current [score] and [highScore]. *)
Definition restartClick (rx ry : Random) (s : State) : State :=
  reset rx ry (saveHighScore (score s) (highScore s) s).

(** The effects that run after the re-render that takes [old] to [new]:
    [localStorage.setItem('snake_high_score', String(highScore))] when
    [highScore] changed, and a new animation loop, closing over the values of
    the new render, when [running] changed. *)
Definition commit (old new : State) : State :=
  let st := if highScore old =? highScore new then localStorage new
            else setItem (highScore new) (localStorage new) in
  let fresh := negb (Bool.eqb (running old) (running new)) in
  {| score := score new; scoreRef := scoreRef new; highScore := highScore new;
     running := running new; velocityRef := velocityRef new;
     snakeRef := snakeRef new; appleRef := appleRef new; speedRef := speedRef new;
     loop_score := if fresh then score new else loop_score new;
     loop_highScore := if fresh then highScore new else loop_highScore new;
     localStorage := st |}.

(** Mounting the component on a store [st].  After the first render
    ([highScore = 0]) the effects run in order: the saved value is read and
    passed to [setHighScore], ['0'] is stored, the loop is installed (closing
    over [score = 0], [highScore = 0]); the re-render then stores the saved
    value back. *)
Definition mount (st : Storage) : State :=
  let first :=
    {| score := 0; scoreRef := 0; highScore := 0; running := true;
       velocityRef := {| x := 1; y := 0 |};
       snakeRef := [ {| x := 10; y := 10 |} ];
       appleRef := {| x := 5; y := 5 |};
       speedRef := 8; loop_score := 0; loop_highScore := 0;
       localStorage := setItem 0 st |} in
  commit first
    {| score := 0; scoreRef := 0; highScore := getItem_or_0 st; running := true;
       velocityRef := velocityRef first; snakeRef := snakeRef first;
       appleRef := appleRef first; speedRef := 8;
       loop_score := 0; loop_highScore := 0;
       localStorage := localStorage first |}.

(** One turn of the animation loop that is due: [if (running) update()],
    followed by the effects of the re-render. *)
Definition frame (rx ry : Random) (s : State) : option State :=
  if running s then commit s <$> update rx ry s else Some s.

(** The events of the component, each followed by the effects of its
    re-render. *)
Inductive Event :=
| EFrame (rx ry : Random)
| EKey (k : Key)
| EPauseButton
| ERestartButton (rx ry : Random).

Definition step (e : Event) (s : State) : option State :=
  match e with
  | EFrame rx ry => frame rx ry s
  | EKey k => Some (commit s (handleKey k s))
  | EPauseButton => Some (commit s (toggleRunning s))
  | ERestartButton rx ry => Some (commit s (restartClick rx ry s))
  end.

(** The states a mounted component goes through. *)
Inductive reachable : State → Prop :=
| reachable_mount st : reachable (mount st)
| reachable_step e s s' : reachable s → step e s = Some s' → reachable s'.

End Agent.

(** ** Painting and input decoding *)

(** One [ctx.fillRect(x, y, w, h)] call, with the [fillStyle] in force. *)
Record Fill := {
  fill_style : string;
  rect_x : Z;
  rect_y : Z;
  rect_w : Z;
  rect_h : Z
}.

(** The filled rectangle lies on a canvas of [w] by [h] pixels and is not
    empty. *)
Definition within (f : Fill) (w h : Z) : Prop :=
  0 ≤ rect_x f ∧ 0 ≤ rect_y f ∧ 0 < rect_w f ∧ 0 < rect_h f ∧
  rect_x f + rect_w f ≤ w ∧ rect_y f + rect_h f ≤ h.

(** Two filled rectangles share no pixel. *)
Definition apart (f g : Fill) : Prop :=
  rect_x f + rect_w f ≤ rect_x g ∨ rect_x g + rect_w g ≤ rect_x f ∨
  rect_y f + rect_h f ≤ rect_y g ∨ rect_y g + rect_h g ≤ rect_y f.

(** The parts of snake-game-chatgpt around its state machine: the cell size
    chosen on resize, the fills of the draw effect, the decoding of keys and
    swipes.  (The strokes of the grid lines are not modelled.) *)
Module ChatGPTUI.

(** [updateCellSize()] for [window.innerWidth = innerWidth]: the new value of
    the [cellSize] hook. *)
Definition updateCellSize (innerWidth : Z) : Z :=
  let maxWidth := Z.min (innerWidth - 48) 640 in
  let cs := maxWidth / ChatGPT.GRID_COLS in
  Z.max 12 (Z.min cs 28).

(** [Math.max(1, Math.floor(size * 0.08))] of [drawCell], with 0.08 read as
    the fraction 8/100; [pad_matches_binary64] checks the product in binary64
    for the cell sizes [updateCellSize] gives. *)
Definition pad (size : Z) : Z := Z.max 1 (Qfloor (inject_Z size * (8 # 100))).

(** [drawCell(ctx, x, y, size, fill)] *)
Definition drawCell (cx cy size : Z) (fill : string) : Fill :=
  {| fill_style := fill;
     rect_x := cx * size + pad size;
     rect_y := cy * size + pad size;
     rect_w := size - pad size * 2;
     rect_h := size - pad size * 2 |}.

(** The fills of the draw effect, in painting order: the background over the
    whole canvas, the food, then the segments of the snake, the head in a
    lighter shade. *)
Definition draw (s : ChatGPT.State) (cellSize : Z) : list Fill :=
  {| fill_style := "#0f172a"; rect_x := 0; rect_y := 0;
     rect_w := ChatGPT.GRID_COLS * cellSize;
     rect_h := ChatGPT.GRID_ROWS * cellSize |}
  :: drawCell (x (ChatGPT.food s)) (y (ChatGPT.food s)) cellSize "#ef4444"
  :: imap (λ idx seg,
             drawCell (x seg) (y seg) cellSize
               (if (idx =? 0)%nat then "#84cc16" else "#16a34a"))
          (ChatGPT.snake s).

(** The binary64 product [size * 0.08] lies in [[k, k+1)]; the literal is the
    double nearest to 0.08. *)
Definition product_floor_is (size k : Z) : bool :=
  let p := PrimFloat.mul (PrimFloat.of_uint63 (Uint63.of_Z size))
                         0x1.47ae147ae147bp-4%float in
  PrimFloat.leb (PrimFloat.of_uint63 (Uint63.of_Z k)) p
  && PrimFloat.ltb p (PrimFloat.of_uint63 (Uint63.of_Z (k + 1))).

(** [onKey(e)] on the string [e.key]: six tests one after the other, of which
    at most one holds for a given key. *)
Definition onKey (key : string) (r : Random) (s : ChatGPT.State) : ChatGPT.State :=
  let pressed k := String.eqb key k in
  let s1 := if pressed "ArrowUp" || pressed "w" || pressed "W"
            then ChatGPT.trySetDir {| x := 0; y := -1 |} s else s in
  let s2 := if pressed "ArrowDown" || pressed "s" || pressed "S"
            then ChatGPT.trySetDir {| x := 0; y := 1 |} s1 else s1 in
  let s3 := if pressed "ArrowLeft" || pressed "a" || pressed "A"
            then ChatGPT.trySetDir {| x := -1; y := 0 |} s2 else s2 in
  let s4 := if pressed "ArrowRight" || pressed "d" || pressed "D"
            then ChatGPT.trySetDir {| x := 1; y := 0 |} s3 else s3 in
  let s5 := if pressed " " || pressed "Spacebar" then ChatGPT.toggleRunning s4 else s4 in
  if pressed "r" || pressed "R" then ChatGPT.resetGame r s5 else s5.

(** The key [onKey] of the state machine stands for. *)
Definition keyOf (key : string) : ChatGPT.Key :=
  let pressed k := String.eqb key k in
  if pressed "ArrowUp" || pressed "w" || pressed "W" then ChatGPT.ArrowUp
  else if pressed "ArrowDown" || pressed "s" || pressed "S" then ChatGPT.ArrowDown
  else if pressed "ArrowLeft" || pressed "a" || pressed "A" then ChatGPT.ArrowLeft
  else if pressed "ArrowRight" || pressed "d" || pressed "D" then ChatGPT.ArrowRight
  else if pressed " " || pressed "Spacebar" then ChatGPT.Space
  else if pressed "r" || pressed "R" then ChatGPT.KeyR
  else ChatGPT.OtherKey.

(** [touchEnd(e)] for a touch that ends at [(tx, ty)], with
    [touchStartRef.current] equal to [t0] ([None] for [null]).  Coordinates
    are whole pixels, on which the subtractions of the handler are exact. *)
Definition touchEnd (t0 : option (Z * Z)) (tx ty : Z) (s : ChatGPT.State)
    : ChatGPT.State :=
  match t0 with
  | None => s
  | Some (x0, y0) =>
    let dx := tx - x0 in
    let dy := ty - y0 in
    let absX := Z.abs dx in
    let absY := Z.abs dy in
    if Z.max absX absY <? 20 then s
    else if absX >? absY then
      if dx >? 0 then ChatGPT.trySetDir {| x := 1; y := 0 |} s
      else ChatGPT.trySetDir {| x := -1; y := 0 |} s
    else
      if dy >? 0 then ChatGPT.trySetDir {| x := 0; y := 1 |} s
      else ChatGPT.trySetDir {| x := 0; y := -1 |} s
  end.

End ChatGPTUI.

(** The same parts of snake-game-agent. *)
Module AgentUI.

(** The fills of [draw()], in painting order: the background, the apple over
    its whole cell, then the parts of the snake, each one pixel inside its
    cell. *)
Definition draw (s : Agent.State) : list Fill :=
  {| fill_style := "#0f172a"; rect_x := 0; rect_y := 0;
     rect_w := Agent.CANVAS_SIZE; rect_h := Agent.CANVAS_SIZE |}
  :: {| fill_style := "#ef4444";
        rect_x := x (Agent.appleRef s) * Agent.SCALE;
        rect_y := y (Agent.appleRef s) * Agent.SCALE;
        rect_w := Agent.SCALE; rect_h := Agent.SCALE |}
  :: ((λ part,
         {| fill_style := "#22c55e";
            rect_x := x part * Agent.SCALE + 1;
            rect_y := y part * Agent.SCALE + 1;
            rect_w := Agent.SCALE - 2; rect_h := Agent.SCALE - 2 |})
      <$> Agent.snakeRef s).

(** The key [handleKey] of the state machine stands for: the four arrows and
    the two names of the space bar. *)
Definition keyOf (key : string) : Agent.Key :=
  let pressed k := String.eqb key k in
  if pressed "ArrowUp" then Agent.ArrowUp
  else if pressed "ArrowDown" then Agent.ArrowDown
  else if pressed "ArrowLeft" then Agent.ArrowLeft
  else if pressed "ArrowRight" then Agent.ArrowRight
  else if pressed " " || pressed "Spacebar" then Agent.Space
  else Agent.OtherKey.

(** [handleKey(e)] on the string [e.key]: [v] is read once, then five tests
    follow one after the other. *)
Definition handleKey (key : string) (s : Agent.State) : Agent.State :=
  let pressed k := String.eqb key k in
  let v := Agent.velocityRef s in
  let s1 := if pressed "ArrowUp" && negb (y v =? 1)
            then Agent.set_velocity {| x := 0; y := -1 |} s else s in
  let s2 := if pressed "ArrowDown" && negb (y v =? -1)
            then Agent.set_velocity {| x := 0; y := 1 |} s1 else s1 in
  let s3 := if pressed "ArrowLeft" && negb (x v =? 1)
            then Agent.set_velocity {| x := -1; y := 0 |} s2 else s2 in
  let s4 := if pressed "ArrowRight" && negb (x v =? -1)
            then Agent.set_velocity {| x := 1; y := 0 |} s3 else s3 in
  if pressed " " || pressed "Spacebar" then Agent.toggleRunning s4 else s4.

End AgentUI.

(** ** Runs: the events of a trace, one after the other *)

Fixpoint chatgpt_run (es : list ChatGPT.Event) (s : ChatGPT.State) : option ChatGPT.State :=
  match es with
  | [] => Some s
  | e :: es' => ChatGPT.step e s ≫= chatgpt_run es'
  end.

Fixpoint agent_run (es : list Agent.Event) (s : Agent.State) : option Agent.State :=
  match es with
  | [] => Some s
  | e :: es' => Agent.step e s ≫= agent_run es'
  end.

(** ** Auxiliary: the separator of a key *)

(** Whether a string contains a comma. *)
Fixpoint has_comma (s : string) : bool :=
  match s with
  | EmptyString => false
  | String c s' => if Ascii.eqb c ","%char then true else has_comma s'
  end.

(** ** Invariants of the reachable states *)

(** The four directions the input handlers pass on. *)
Definition unit_dir (d : Point) : Prop :=
  d ∈ [ {| x := 1; y := 0 |}; {| x := -1; y := 0 |};
        {| x := 0; y := 1 |}; {| x := 0; y := -1 |} ].

(** What holds of every state of a mounted snake-game-chatgpt component. *)
Record chatgpt_inv (s : ChatGPT.State) : Prop := {
  cinv_snake : ChatGPT.snake s ≠ [];
  cinv_grid : ChatGPT.snake s ⊆ ChatGPT.grid;
  cinv_dir : unit_dir (ChatGPT.dir s);
  cinv_next : ∀ d, ChatGPT.nextDir s = Some d →
                   unit_dir d ∧ d ≠ negate (ChatGPT.dir s);
  cinv_score : ChatGPT.score s =
               Z.of_nat (length (ChatGPT.snake s))
               - Z.of_nat (length ChatGPT.INITIAL_SNAKE);
  cinv_high : ChatGPT.highScore s = getItem_or_0 (ChatGPT.localStorage s);
  cinv_food : ChatGPT.food s ∈ ChatGPT.grid ∧
              (ChatGPT.food s ∉ ChatGPT.snake s ∨
               ChatGPT.grid ⊆ ChatGPT.snake s)
}.

(** A cell of the [ROWS] by [ROWS] board of snake-game-agent. *)
Definition on_board (c : Point) : Prop :=
  (0 ≤ x c < Agent.ROWS) ∧ (0 ≤ y c < Agent.ROWS).

(** What holds of every state of a mounted snake-game-agent component. *)
Record agent_inv (s : Agent.State) : Prop := {
  ainv_snake : Agent.snakeRef s ≠ [];
  ainv_board : ∀ c, c ∈ Agent.snakeRef s → on_board c;
  ainv_velocity : unit_dir (Agent.velocityRef s);
  ainv_score : Agent.score s = Z.of_nat (length (Agent.snakeRef s)) - 1;
  ainv_scoreRef : Agent.scoreRef s = Agent.score s;
  ainv_stored : stored (Agent.localStorage s) = Some (Agent.highScore s);
  ainv_apple : on_board (Agent.appleRef s)
}.

(** The cell one step [d] away from [c], around the edges of the 20 by 20
    grid. *)
Definition next_cell (c d : Point) : Point :=
  {| x := (x c + x d) mod 20; y := (y c + y d) mod 20 |}.

(** A snake of snake-game-chatgpt that has its three initial cells lies along
    its way: the head is one step in direction [dir] from the second cell,
    which is one step from the third. *)
Definition chatgpt_on_its_way (s : ChatGPT.State) : Prop :=
  ∀ h b t, ChatGPT.snake s = [h; b; t] →
    h = next_cell b (ChatGPT.dir s) ∧ ∃ e, unit_dir e ∧ b = next_cell t e.

(** ** Sample inputs used by the examples below *)

(** The draw [0.5]. *)
Definition half : Random := {| rnd := 1 # 2; rnd_range := eq_refl |}.

(** The draw [0.25]. *)
Definition quarter : Random := {| rnd := 1 # 4; rnd_range := eq_refl |}.

(** An empty store: the key was never written. *)
Definition no_store : Storage := {| stored := None; setItem_calls := 0 |}.

(** A store that holds the high score 10. *)
Definition store_of_10 : Storage := {| stored := Some 10; setItem_calls := 0 |}.

(** The draw for which [placeFood] puts the first food of snake-game-chatgpt
    at (10,9), right in front of the head of the initial snake: the cell of
    index 206 among the 397 free ones. *)
Definition draw_in_front : Random := {| rnd := 413 # 794; rnd_range := eq_refl |}.

(** *** States and runs of snake-game-chatgpt *)

(** snake-game-chatgpt after its mount, with the food right in front of the
    head. *)
Definition chatgpt_fed : ChatGPT.State :=
  {| ChatGPT.snake := ChatGPT.INITIAL_SNAKE;
     ChatGPT.dir := {| x := 1; y := 0 |};
     ChatGPT.nextDir := None;
     ChatGPT.food := {| x := 10; y := 9 |};
     ChatGPT.speed := ChatGPT.INITIAL_SPEED;
     ChatGPT.running := true;
     ChatGPT.score := 0;
     ChatGPT.highScore := 0;
     ChatGPT.localStorage := no_store |}.

(** snake-game-chatgpt after its mount, with the food away from the snake, at
    (15,15). *)
Definition chatgpt_away : ChatGPT.State :=
  {| ChatGPT.snake := ChatGPT.INITIAL_SNAKE;
     ChatGPT.dir := {| x := 1; y := 0 |};
     ChatGPT.nextDir := None;
     ChatGPT.food := {| x := 15; y := 15 |};
     ChatGPT.speed := ChatGPT.INITIAL_SPEED;
     ChatGPT.running := true;
     ChatGPT.score := 0;
     ChatGPT.highScore := 0;
     ChatGPT.localStorage := no_store |}.

(** snake-game-chatgpt with the head on the right border, moving right. *)
Definition chatgpt_at_border : ChatGPT.State :=
  {| ChatGPT.snake := [ {| x := 19; y := 9 |}; {| x := 18; y := 9 |};
                        {| x := 17; y := 9 |} ];
     ChatGPT.dir := {| x := 1; y := 0 |};
     ChatGPT.nextDir := None;
     ChatGPT.food := {| x := 15; y := 15 |};
     ChatGPT.speed := ChatGPT.INITIAL_SPEED;
     ChatGPT.running := true;
     ChatGPT.score := 0;
     ChatGPT.highScore := 0;
     ChatGPT.localStorage := no_store |}.

(** A four-cell snake of snake-game-chatgpt on a square, the head at (5,5)
    about to turn right into the cell (6,5) of its own tail, at score 1 under
    a stored high score of 7. *)
Definition chatgpt_square : ChatGPT.State :=
  {| ChatGPT.snake := [ {| x := 5; y := 5 |}; {| x := 5; y := 6 |};
                        {| x := 6; y := 6 |}; {| x := 6; y := 5 |} ];
     ChatGPT.dir := {| x := 0; y := -1 |};
     ChatGPT.nextDir := Some {| x := 1; y := 0 |};
     ChatGPT.food := {| x := 0; y := 0 |};
     ChatGPT.speed := 13 # 2;
     ChatGPT.running := true;
     ChatGPT.score := 1;
     ChatGPT.highScore := 7;
     ChatGPT.localStorage := {| stored := Some 7; setItem_calls := 1 |} |}.

(** A snake of snake-game-chatgpt curled on itself: it went down twice from
    [(6,4)], left, up, and a turn to the right is queued, towards [(6,5)]. *)
Definition chatgpt_curled : ChatGPT.State :=
  {| ChatGPT.snake := [ {| x := 5; y := 5 |}; {| x := 5; y := 6 |};
                        {| x := 6; y := 6 |}; {| x := 6; y := 5 |};
                        {| x := 6; y := 4 |} ];
     ChatGPT.dir := {| x := 0; y := -1 |};
     ChatGPT.nextDir := Some {| x := 1; y := 0 |};
     ChatGPT.food := {| x := 0; y := 0 |};
     ChatGPT.speed := 7;
     ChatGPT.running := true;
     ChatGPT.score := 2;
     ChatGPT.highScore := 1;
     ChatGPT.localStorage := {| stored := Some 1; setItem_calls := 0 |} |}.

(** snake-game-chatgpt with every cell of the grid under the snake, the head
    at (0,0) moving right.  (Only the occupancy matters here, not the order
    of the cells behind the head.) *)
Definition chatgpt_full_board : ChatGPT.State :=
  {| ChatGPT.snake := ChatGPT.grid;
     ChatGPT.dir := {| x := 1; y := 0 |};
     ChatGPT.nextDir := None;
     ChatGPT.food := {| x := 0; y := 0 |};
     ChatGPT.speed := 409 # 2;
     ChatGPT.running := true;
     ChatGPT.score := 397;
     ChatGPT.highScore := 0;
     ChatGPT.localStorage := no_store |}.

(** snake-game-chatgpt from a fresh page with the food in front of the head:
    the snake eats, then turns down, left and up, towards the cell its tail
    is on. *)
Definition chatgpt_short_run : list ChatGPT.Event :=
  [ ChatGPT.ETick half;
    ChatGPT.EKey ChatGPT.ArrowDown half; ChatGPT.ETick half;
    ChatGPT.EKey ChatGPT.ArrowLeft half; ChatGPT.ETick half;
    ChatGPT.EKey ChatGPT.ArrowUp half ].

(** *** States and runs of snake-game-agent *)

(** The same square in snake-game-agent. *)
Definition agent_square : Agent.State :=
  {| Agent.score := 3; Agent.scoreRef := 3; Agent.highScore := 0;
     Agent.running := true;
     Agent.velocityRef := {| x := 1; y := 0 |};
     Agent.snakeRef := [ {| x := 5; y := 5 |}; {| x := 5; y := 6 |};
                         {| x := 6; y := 6 |}; {| x := 6; y := 5 |} ];
     Agent.appleRef := {| x := 0; y := 0 |};
     Agent.speedRef := 8;
     Agent.loop_score := 0; Agent.loop_highScore := 0;
     Agent.localStorage := {| stored := Some 0; setItem_calls := 1 |} |}.

(** The curled snake in snake-game-agent, one cell longer, after the player
    has turned right; the loop was last installed at score 5. *)
Definition agent_curled : Agent.State :=
  {| Agent.score := 5; Agent.scoreRef := 5; Agent.highScore := 3;
     Agent.running := true;
     Agent.velocityRef := {| x := 1; y := 0 |};
     Agent.snakeRef := [ {| x := 5; y := 5 |}; {| x := 5; y := 6 |};
                         {| x := 6; y := 6 |}; {| x := 6; y := 5 |};
                         {| x := 6; y := 4 |}; {| x := 6; y := 3 |} ];
     Agent.appleRef := {| x := 0; y := 0 |};
     Agent.speedRef := 9;
     Agent.loop_score := 5; Agent.loop_highScore := 3;
     Agent.localStorage := {| stored := Some 3; setItem_calls := 2 |} |}.

(** snake-game-agent with every cell of the board but (0,0) under the snake,
    the head at (1,0) moving left towards the apple at (0,0).  (Only the
    occupancy matters here, not the order of the cells behind the head.) *)
Definition agent_board_but_one : Agent.State :=
  {| Agent.score := 398; Agent.scoreRef := 398; Agent.highScore := 0;
     Agent.running := true;
     Agent.velocityRef := {| x := -1; y := 0 |};
     Agent.snakeRef :=
       {| x := 1; y := 0 |}
       :: filter (λ c, c ≠ {| x := 1; y := 0 |} ∧ c ≠ {| x := 0; y := 0 |})
                 ChatGPT.grid;
     Agent.appleRef := {| x := 0; y := 0 |};
     Agent.speedRef := 87;
     Agent.loop_score := 0; Agent.loop_highScore := 0;
     Agent.localStorage := {| stored := Some 0; setItem_calls := 1 |} |}.

(** snake-game-agent from a fresh page: up five cells, then left four cells;
    the head is at (6,5), next to the first apple at (5,5). *)
Definition agent_to_first_apple : list Agent.Event :=
  Agent.EKey Agent.ArrowUp :: replicate 5 (Agent.EFrame half half) ++
  Agent.EKey Agent.ArrowLeft :: replicate 4 (Agent.EFrame half half).

(** The state that run ends in: the snake is the single cell (6,5), moving
    left, the apple is at (5,5). *)
Definition agent_at_first_apple : Agent.State :=
  {| Agent.score := 0; Agent.scoreRef := 0; Agent.highScore := 0;
     Agent.running := true;
     Agent.velocityRef := {| x := -1; y := 0 |};
     Agent.snakeRef := [ {| x := 6; y := 5 |} ];
     Agent.appleRef := {| x := 5; y := 5 |};
     Agent.speedRef := 8;
     Agent.loop_score := 0; Agent.loop_highScore := 0;
     Agent.localStorage := {| stored := Some 0; setItem_calls := 1 |} |}.

(** snake-game-agent from a fresh page after nine frames: the head is on the
    right border, at (19,10). *)
Definition agent_to_border : list Agent.Event := replicate 9 (Agent.EFrame half half).

(** snake-game-agent: the snake eats the first apple, then the player
    reverses with two key presses (ArrowUp, ArrowRight) and the next frame is
    a game over at score 1. *)
Definition agent_short_run : list Agent.Event :=
  agent_to_first_apple ++
  [ Agent.EFrame half half; Agent.EKey Agent.ArrowUp;
    Agent.EKey Agent.ArrowRight; Agent.EFrame half half ].

(** The same run with a pause and a resume before the reversal: the resume
    installs a loop that closes over the current score and high score. *)
Definition agent_paused_run : list Agent.Event :=
  agent_to_first_apple ++
  [ Agent.EFrame half half; Agent.EPauseButton; Agent.EPauseButton;
    Agent.EKey Agent.ArrowUp; Agent.EKey Agent.ArrowRight ].

(** The draw [0]. *)
Definition draw_zero : Random := {| rnd := 0; rnd_range := eq_refl |}.

(** The draw [0.21875]: index 4 of 20. *)
Definition draw_of_4 : Random := {| rnd := 7 # 32; rnd_range := eq_refl |}.

(** snake-game-agent from a fresh page to the square [agent_square]: the
    snake eats the first apple at (5,5) and the next two, drawn at (4,5) and
    (4,4); the fourth apple is drawn at (0,0).  The snake then goes right
    along row 4 to (6,4), down to (6,6), left to (5,6) and up to (5,5), and
    the player presses ArrowRight. *)
Definition agent_to_square : list Agent.Event :=
  agent_to_first_apple ++
  [ Agent.EFrame draw_of_4 quarter;
    Agent.EFrame draw_of_4 draw_of_4;
    Agent.EKey Agent.ArrowUp; Agent.EFrame draw_zero draw_zero;
    Agent.EKey Agent.ArrowRight; Agent.EFrame half half; Agent.EFrame half half;
    Agent.EKey Agent.ArrowDown; Agent.EFrame half half; Agent.EFrame half half;
    Agent.EKey Agent.ArrowLeft; Agent.EFrame half half;
    Agent.EKey Agent.ArrowUp; Agent.EFrame half half;
    Agent.EKey Agent.ArrowRight ].

(** * Properties *)

(** ** Cells and random draws *)

Lemma same_cell_true (a b : Point) : same_cell a b = true ↔ a = b.
Proof.
  unfold same_cell. rewrite andb_true_iff, !Z.eqb_eq.
  destruct a, b; simpl. split; [intros [-> ->] | intros [= -> ->]]; done.
Qed.

Lemma same_cell_false (a b : Point) : same_cell a b = false ↔ a ≠ b.
Proof.
  rewrite <- same_cell_true. destruct (same_cell a b); split; congruence.
Qed.

Lemma opposite_true (a b : Point) : opposite a b = true ↔ b = negate a.
Proof.
  unfold opposite, negate. rewrite andb_true_iff, !Z.eqb_eq.
  destruct a, b; simpl. split; [intros [? ?]; f_equal; lia | intros [= -> ->]; lia].
Qed.

Lemma rnd_bounds (r : Random) : (0 <= rnd r)%Q ∧ (rnd r < 1)%Q.
Proof.
  destruct (andb_prop _ _ (rnd_range r)) as [H0 H1]. split.
  - by apply Qle_bool_iff.
  - apply Qnot_le_lt. intros H%Qle_bool_iff. by rewrite H in H1.
Qed.

(** [Math.floor(Math.random() * n)] is an index of an array of length [n]. *)
Lemma random_below_range (r : Random) (n : Z) :
  0 < n → 0 ≤ random_below r n < n.
Proof.
  intros Hn. destruct (rnd_bounds r) as [H0 H1]. unfold random_below.
  assert (Hq : (0 < inject_Z n)%Q) by (change (inject_Z 0 < inject_Z n)%Q; by rewrite <- Zlt_Qlt).
  split.
  - change 0 with (Qfloor 0). apply Qfloor_resp_le.
    apply Qmult_le_0_compat; [done | by apply Qlt_le_weak].
  - rewrite Zlt_Qlt. eapply Qle_lt_trans; [apply Qfloor_le |].
    eapply Qlt_le_trans; [apply Qmult_lt_compat_r; eassumption |].
    rewrite Qmult_1_l. apply Qle_refl.
Qed.

Lemma getItem_setItem (v : Z) (st : Storage) : getItem_or_0 (setItem v st) = v.
Proof. reflexivity. Qed.

Lemma hits_elem_of (l : list Point) (h : Point) :
  existsb (λ s, same_cell s h) l = true ↔ h ∈ l.
Proof.
  rewrite existsb_exists. split.
  - intros (c & Hc & ->%same_cell_true). by apply list_elem_of_In.
  - intros Hh. exists h. split; [by apply list_elem_of_In | by apply same_cell_true].
Qed.

Lemma pop_length (h : Point) (l : list Point) : length (pop (h :: l)) = length l.
Proof.
  unfold pop. rewrite removelast_firstn_len, length_take. simpl. lia.
Qed.

Lemma pop_subseteq (l : list Point) : pop l ⊆ l.
Proof. unfold pop. rewrite removelast_firstn_len. apply subseteq_take. Qed.

(** The cells that stay after [unshift] and [pop]: the new head and cells of
    the old snake. *)
Lemma elem_of_pop_cons (c h : Point) (l : list Point) :
  c ∈ pop (h :: l) → c = h ∨ c ∈ l.
Proof.
  intros Hc. destruct l as [| a l]; [by inversion Hc |].
  change (pop (h :: a :: l)) with (h :: pop (a :: l)) in Hc.
  apply elem_of_cons in Hc as [-> | Hc]; [by left | right].
  by apply pop_subseteq.
Qed.

(** ** snake-game-chatgpt: the grid and [placeFood] *)
Section chatgpt_grid.
Import ChatGPT.

(** [mod] is the mathematical modulo for a positive modulus. *)
Lemma mod__modulo (n m : Z) : 0 < m → mod_ n m = n mod m.
Proof.
  intros Hm. unfold mod_.
  pose proof (Z.rem_bound_abs n m ltac:(lia)) as Hb.
  pose proof (Z.quot_rem' n m) as Hqr.
  assert (Hr : - m < Z.rem n m < m) by lia.
  rewrite Z.rem_mod_nonneg by lia.
  apply (Z.mod_unique_pos n m (Z.quot n m + (Z.rem n m + m) / m - 1)).
  - apply Z.mod_pos_bound; lia.
  - pose proof (Z.div_mod (Z.rem n m + m) m ltac:(lia)). nia.
Qed.

Lemma elem_of_grid (c : Point) :
  c ∈ grid ↔ (0 ≤ x c < GRID_COLS) ∧ (0 ≤ y c < GRID_ROWS).
Proof.
  unfold grid. rewrite list_elem_of_bind. split.
  - intros (cx & (cy & ->%list_elem_of_singleton & Hy%elem_of_seqZ)%list_elem_of_bind
               & Hx%elem_of_seqZ).
    simpl. lia.
  - intros [Hx Hy]. exists (x c). split; [| apply elem_of_seqZ; lia].
    apply list_elem_of_bind. exists (y c). split; [| apply elem_of_seqZ; lia].
    destruct c. by apply list_elem_of_singleton.
Qed.

Lemma NoDup_grid : NoDup grid.
Proof.
  unfold grid. apply NoDup_bind; [| | apply NoDup_seqZ].
  - intros x1 x2 c _ _
      (y1 & ->%list_elem_of_singleton & _)%list_elem_of_bind
      (y2 & [= -> _]%list_elem_of_singleton & _)%list_elem_of_bind.
    done.
  - intros cx _. apply NoDup_bind; [| | apply NoDup_seqZ].
    + intros y1 y2 c _ _ ->%list_elem_of_singleton [= ->]%list_elem_of_singleton.
      done.
    + intros cy _. apply NoDup_singleton.
Qed.

Lemma grid_length : length grid = 400%nat.
Proof. reflexivity. Qed.

(** Keys determine their cells: a decimal rendering has no comma, so the
    first comma of a key separates the two renderings. *)
Lemma pretty_N_char_not_comma (n : N) : Ascii.eqb (pretty_N_char n) "," = false.
Proof. unfold pretty_N_char. by repeat case_match. Qed.

Lemma pretty_N_go_no_comma (n : N) (s : string) :
  has_comma s = false → has_comma (pretty_N_go n s) = false.
Proof.
  revert s. induction (N.lt_wf_0 n) as [n _ IH]. intros s Hs.
  destruct (decide (n = 0%N)) as [-> | Hn].
  - by rewrite pretty_N_go_0.
  - rewrite pretty_N_go_step by lia. apply IH.
    + apply N.div_lt; lia.
    + simpl. by rewrite pretty_N_char_not_comma.
Qed.

Lemma append_nil_l (s : string) : "" +:+ s = s.
Proof. reflexivity. Qed.

Lemma append_cons (c : ascii) (s1 s2 : string) :
  String c s1 +:+ s2 = String c (s1 +:+ s2).
Proof. reflexivity. Qed.

Lemma has_comma_app (s1 s2 : string) :
  has_comma (s1 +:+ s2) = has_comma s1 || has_comma s2.
Proof.
  induction s1 as [| c s1 IH]; [done |].
  rewrite append_cons. simpl. by destruct (Ascii.eqb c ",").
Qed.

Lemma pretty_Z_no_comma (z : Z) : has_comma (pretty z) = false.
Proof.
  assert (∀ p : positive, has_comma (pretty p) = false) as Hp.
  { intros p. unfold pretty, pretty_positive, pretty, pretty_N.
    case_decide; [done |]. by apply pretty_N_go_no_comma. }
  destruct z as [| p | p]; [done | apply Hp |].
  unfold pretty, pretty_Z. rewrite has_comma_app. simpl. apply Hp.
Qed.

Lemma comma_split (a a' b b' : string) :
  has_comma a = false → has_comma a' = false →
  a +:+ "," +:+ b = a' +:+ "," +:+ b' → a = a' ∧ b = b'.
Proof.
  revert a'. induction a as [| c a IH]; intros [| c' a'] Ha Ha' E;
    rewrite ?append_nil_l, ?append_cons, ?append_nil_l in E; simpl in Ha, Ha'.
  - by injection E as ->.
  - injection E as <- _. by rewrite Ascii.eqb_refl in Ha'.
  - injection E as -> _. by rewrite Ascii.eqb_refl in Ha.
  - injection E as -> E.
    destruct (Ascii.eqb c' ",") eqn:Ec; [done |].
    by destruct (IH a' Ha Ha' E) as [-> ->].
Qed.

Lemma key_inj (a b : Point) : key a = key b → a = b.
Proof.
  unfold key. intros [Hx Hy]%comma_split; try apply pretty_Z_no_comma.
  apply (inj pretty) in Hx, Hy. destruct a, b; simpl in *. by subst.
Qed.

(** A key is in the [Set] exactly when its cell is in the array. *)
Lemma key_occupied (c : Point) (snakeArr : list Point) :
  key c ∈ occupied snakeArr ↔ c ∈ snakeArr.
Proof.
  unfold occupied. rewrite elem_of_list_to_set, list_elem_of_fmap. split.
  - by intros (c' & <-%key_inj & Hc').
  - intros Hc. by exists c.
Qed.

(** [free] lists the cells of the grid that are not on the snake, each once. *)
Lemma elem_of_free (c : Point) (snakeArr : list Point) :
  c ∈ free snakeArr ↔ c ∈ grid ∧ c ∉ snakeArr.
Proof.
  unfold free. rewrite list_elem_of_filter, key_occupied. tauto.
Qed.


(** No free cell is left exactly when the snake covers the grid. *)
Lemma free_nil (snakeArr : list Point) :
  free snakeArr = [] ↔ grid ⊆ snakeArr.
Proof.
  split.
  - intros Hnil c Hc. destruct (decide (c ∈ snakeArr)) as [| Hn]; [done |].
    assert (c ∈ free snakeArr) as Hf by (by apply elem_of_free).
    rewrite Hnil in Hf. by apply not_elem_of_nil in Hf.
  - intros Hsub. destruct (free snakeArr) as [| c l] eqn:E; [done |].
    assert (c ∈ free snakeArr) as [Hg Hn]%elem_of_free by (rewrite E; left).
    by apply Hsub in Hg.
Qed.

(** The index [Math.floor(Math.random() * free.length)] is inside [free]. *)
Lemma free_index_in_range (r : Random) (snakeArr : list Point) :
  free snakeArr ≠ [] →
  (Z.to_nat (random_below r (Z.of_nat (length (free snakeArr))))
   < length (free snakeArr))%nat.
Proof.
  intros Hne.
  assert (0 < Z.of_nat (length (free snakeArr))) as Hlen
    by (destruct (free snakeArr); [done | simpl; lia]).
  pose proof (random_below_range r _ Hlen). lia.
Qed.

(** [placeFood] returns [free[i]] for the drawn index [i] ... *)
Lemma placeFood_lookup (r : Random) (snakeArr : list Point) :
  free snakeArr ≠ [] →
  free snakeArr !! Z.to_nat (random_below r (Z.of_nat (length (free snakeArr))))
  = Some (placeFood r snakeArr).
Proof.
  intros Hne. unfold placeFood.
  destruct (lookup_lt_is_Some_2 _ _ (free_index_in_range r snakeArr Hne)) as [c Hc].
  rewrite Hc. destruct (Z.eqb_spec (Z.of_nat (length (free snakeArr))) 0) as [E |]; [| done].
  destruct (free snakeArr); [done | simpl in E; lia].
Qed.

(** ... and the fallback cell when [free] is empty. *)
Lemma placeFood_fallback (r : Random) (snakeArr : list Point) :
  free snakeArr = [] → placeFood r snakeArr = {| x := 0; y := 0 |}.
Proof. intros E. unfold placeFood. by rewrite E. Qed.

Lemma placeFood_free (r : Random) (snakeArr : list Point) :
  free snakeArr ≠ [] → placeFood r snakeArr ∈ free snakeArr.
Proof.
  intros Hne. eapply list_elem_of_lookup_2, placeFood_lookup, Hne.
Qed.

Lemma placeFood_in_grid (r : Random) (snakeArr : list Point) :
  placeFood r snakeArr ∈ grid.
Proof.
  destruct (decide (free snakeArr = [])) as [E | Hne].
  - rewrite (placeFood_fallback _ _ E). by apply elem_of_grid.
  - by apply (placeFood_free r), elem_of_free in Hne as [? _].
Qed.

End chatgpt_grid.

(** ** The three outcomes of a tick *)

Lemma hits_false (l : list Point) (h : Point) :
  existsb (λ s, same_cell s h) l = false ↔ h ∉ l.
Proof.
  rewrite <- hits_elem_of. destruct (existsb _ l); split; congruence.
Qed.

Section chatgpt_tick.
Import ChatGPT.
Variables (r : Random) (s : State) (head : Point) (tl : list Point).
Hypothesis Hsnake : snake s = head :: tl.

Lemma chatgpt_tick_game_over :
  newHead head s ∈ snake s →
  tick r s = Some (handleGameOver (applyQueuedDir s)).
Proof.
  intros Hin%hits_elem_of. unfold tick, hits. rewrite Hsnake in *. by rewrite Hin.
Qed.

Lemma chatgpt_tick_eat :
  newHead head s ∉ snake s → newHead head s = food s →
  tick r s =
  Some {| snake := newHead head s :: snake s; dir := currentDir s; nextDir := None;
          food := placeFood r (newHead head s :: snake s);
          speed := (speed s + SPEED_INCREASE)%Q; running := running s;
          score := score s + 1; highScore := highScore s;
          localStorage := localStorage s |}.
Proof.
  intros Hout%hits_false Hfood%same_cell_true. unfold tick, hits.
  rewrite Hsnake in *. by rewrite Hout, Hfood.
Qed.

Lemma chatgpt_tick_move :
  newHead head s ∉ snake s → newHead head s ≠ food s →
  tick r s =
  Some {| snake := pop (newHead head s :: snake s); dir := currentDir s;
          nextDir := None; food := food s; speed := speed s;
          running := running s; score := score s; highScore := highScore s;
          localStorage := localStorage s |}.
Proof.
  intros Hout%hits_false Hfood%same_cell_false. unfold tick, hits.
  rewrite Hsnake in *. by rewrite Hout, Hfood.
Qed.

End chatgpt_tick.

Section agent_update.
Import Agent.
Variables (rx ry : Random) (s : State) (h0 : Point) (tl : list Point).
Hypothesis Hsnake : snakeRef s = h0 :: tl.

Lemma agent_update_game_over :
  newHead h0 s ∈ snakeRef s → update rx ry s = Some (gameOver rx ry s).
Proof.
  intros Hin%hits_elem_of. unfold update, hits. rewrite Hsnake in *. by rewrite Hin.
Qed.

Lemma agent_update_eat :
  newHead h0 s ∉ snakeRef s → newHead h0 s = appleRef s →
  update rx ry s =
  Some {| score := score s + 1; scoreRef := score s + 1; highScore := highScore s;
          running := running s; velocityRef := velocityRef s;
          snakeRef := newHead h0 s :: snakeRef s;
          appleRef := randomApple rx ry;
          speedRef := 8 + (score s + 1) / 5;
          loop_score := loop_score s; loop_highScore := loop_highScore s;
          localStorage := localStorage s |}.
Proof.
  intros Hout%hits_false Hfood%same_cell_true. unfold update, hits.
  rewrite Hsnake in *. by rewrite Hout, Hfood.
Qed.

Lemma agent_update_move :
  newHead h0 s ∉ snakeRef s → newHead h0 s ≠ appleRef s →
  update rx ry s =
  Some {| score := score s; scoreRef := scoreRef s; highScore := highScore s;
          running := running s; velocityRef := velocityRef s;
          snakeRef := pop (newHead h0 s :: snakeRef s);
          appleRef := appleRef s; speedRef := speedRef s;
          loop_score := loop_score s; loop_highScore := loop_highScore s;
          localStorage := localStorage s |}.
Proof.
  intros Hout%hits_false Hfood%same_cell_false. unfold update, hits.
  rewrite Hsnake in *. by rewrite Hout, Hfood.
Qed.

End agent_update.

(** ** Invariants *)

Lemma unit_dir_cases (d : Point) :
  unit_dir d →
  d = {| x := 1; y := 0 |} ∨ d = {| x := -1; y := 0 |} ∨
  d = {| x := 0; y := 1 |} ∨ d = {| x := 0; y := -1 |}.
Proof.
  unfold unit_dir. rewrite !elem_of_cons, elem_of_nil. tauto.
Qed.

Lemma unit_dir_bounds (d : Point) : unit_dir d → -1 ≤ x d ≤ 1 ∧ -1 ≤ y d ≤ 1.
Proof. intros [-> | [-> | [-> | ->]]]%unit_dir_cases; simpl; lia. Qed.

Lemma unit_dir_not_self_opposite (d : Point) : unit_dir d → d ≠ negate d.
Proof. by intros [-> | [-> | [-> | ->]]]%unit_dir_cases. Qed.

Create HintDb snake.
#[local] Hint Extern 1 (unit_dir _) =>
  (unfold unit_dir; rewrite !elem_of_cons; intuition congruence) : snake.

Section chatgpt_invariant.
Import ChatGPT.

Lemma chatgpt_newHead_in_grid (head : Point) (s : State) : newHead head s ∈ grid.
Proof.
  apply elem_of_grid. unfold newHead. simpl.
  rewrite !mod__modulo by done. split; by apply Z.mod_pos_bound.
Qed.

Lemma chatgpt_currentDir_unit (s : State) : chatgpt_inv s → unit_dir (currentDir s).
Proof.
  intros I. unfold currentDir. destruct (nextDir s) as [d |] eqn:E; simpl.
  - by apply (cinv_next s I).
  - apply (cinv_dir s I).
Qed.

Lemma chatgpt_init_inv (r : Random) (st : Storage) : chatgpt_inv (init r st).
Proof.
  assert (free INITIAL_SNAKE ≠ []) as Hne by done.
  pose proof (placeFood_free r _ Hne) as [Hg Hf]%elem_of_free.
  split; simpl; try done.
  - intros c Hc. apply elem_of_grid. unfold INITIAL_SNAKE in Hc.
    repeat (apply elem_of_cons in Hc as [-> | Hc]; [done |]).
    by apply elem_of_nil in Hc.
  - auto with snake.
  - auto.
Qed.

Lemma chatgpt_resetGame_inv (r : Random) (s : State) :
  chatgpt_inv s → chatgpt_inv (resetGame r s).
Proof.
  intros I. pose proof (chatgpt_init_inv r (localStorage s)) as I0.
  destruct I0. split; simpl in *; try done. apply (cinv_high s I).
Qed.

Lemma chatgpt_trySetDir_inv (d : Point) (s : State) :
  unit_dir d → chatgpt_inv s → chatgpt_inv (trySetDir d s).
Proof.
  intros Hd I. unfold trySetDir.
  destruct (opposite (dir s) d) eqn:E; [done |].
  destruct I. split; simpl; try done.
  intros ? [= <-]. split; [done |].
  intros Hopp%opposite_true. congruence.
Qed.

Lemma chatgpt_toggleRunning_inv (s : State) :
  chatgpt_inv s → chatgpt_inv (toggleRunning s).
Proof. intros []. by split. Qed.

Lemma chatgpt_tick_inv (r : Random) (s s' : State) :
  chatgpt_inv s → tick r s = Some s' → chatgpt_inv s'.
Proof.
  intros I Ht. pose proof (chatgpt_currentDir_unit s I) as Hcur.
  destruct (snake s) as [| head tl] eqn:Hsnake; [by destruct (cinv_snake s I) |].
  pose proof (chatgpt_newHead_in_grid head s) as Hh.
  destruct I as [Hne Hgrid Hdir Hnext Hscore Hhigh [Hfg Hfood]].
  destruct (decide (newHead head s ∈ snake s)) as [Hin | Hout].
  - rewrite (chatgpt_tick_game_over r s head tl Hsnake Hin) in Ht.
    injection Ht as <-. split; simpl; try done.
  - assert (food s ∉ snake s) as Hoff.
    { destruct Hfood as [| Hfull]; [done |]. destruct Hout. by apply Hfull. }
    destruct (decide (newHead head s = food s)) as [Heat | Hmove].
    + rewrite (chatgpt_tick_eat r s head tl Hsnake Hout Heat) in Ht.
      injection Ht as <-. split; simpl; try done.
      * intros c [-> | Hc]%elem_of_cons; [done | by apply Hgrid].
      * rewrite Hscore. simpl. lia.
      * split; [apply placeFood_in_grid |].
        destruct (decide (free (newHead head s :: snake s) = [])) as [E | Hfree].
        -- right. by apply free_nil.
        -- left. by apply (placeFood_free r), elem_of_free in Hfree as [_ ?].
    + rewrite (chatgpt_tick_move r s head tl Hsnake Hout Hmove) in Ht.
      injection Ht as <-.
      assert (pop (newHead head s :: snake s) ⊆ newHead head s :: snake s) as Hsub
        by apply pop_subseteq.
      split; simpl; try done.
      * rewrite Hsnake. simpl. by destruct tl.
      * intros c [-> | Hc]%Hsub%elem_of_cons; [done | by apply Hgrid].
      * by rewrite pop_length.
      * split; [done |]. left.
        intros [E | Hc]%elem_of_pop_cons; [by destruct Hmove | done].
Qed.

Lemma chatgpt_step_inv (e : Event) (s s' : State) :
  chatgpt_inv s → step e s = Some s' → chatgpt_inv s'.
Proof.
  intros I Hstep. destruct e as [r | k r | w | | r]; simpl in Hstep.
  - destruct (running s); [by eapply chatgpt_tick_inv | by injection Hstep as <-].
  - injection Hstep as <-. destruct k; simpl;
      auto using chatgpt_trySetDir_inv, chatgpt_toggleRunning_inv,
                 chatgpt_resetGame_inv with snake.
  - injection Hstep as <-. destruct w; simpl;
      auto using chatgpt_trySetDir_inv with snake.
  - injection Hstep as <-. by apply chatgpt_toggleRunning_inv.
  - injection Hstep as <-. by apply chatgpt_resetGame_inv.
Qed.

(** Every state of a mounted component satisfies the invariant. *)
Lemma chatgpt_reachable_inv (s : State) : reachable s → chatgpt_inv s.
Proof.
  induction 1 as [r st | e s s' _ IH Hstep].
  - apply chatgpt_init_inv.
  - by eapply chatgpt_step_inv.
Qed.

(** From a state of a mounted component no tick throws. *)
Lemma chatgpt_tick_total (r : Random) (s : State) :
  chatgpt_inv s → is_Some (tick r s).
Proof.
  intros I. unfold tick. destruct (snake s) eqn:E; [by destruct (cinv_snake s I) |].
  simpl. by repeat case_match.
Qed.

End chatgpt_invariant.

Section agent_invariant.
Import Agent.

Lemma agent_wrap_range (n : Z) : 0 ≤ wrap n < ROWS.
Proof.
  unfold wrap. change ROWS with 20.
  destruct (Z.ltb_spec n 0); [done |].
  destruct (Z.geb_spec n 20); lia.
Qed.

Lemma agent_newHead_on_board (h : Point) (s : State) : on_board (newHead h s).
Proof. split; apply agent_wrap_range. Qed.

Lemma agent_randomApple_on_board (rx ry : Random) : on_board (randomApple rx ry).
Proof. split; by apply random_below_range. Qed.

(** The effects of a re-render keep the invariant of the rendered state. *)
Lemma agent_commit_inv (old new : State) : agent_inv new → agent_inv (commit old new).
Proof.
  intros []. split; simpl; try done.
  by destruct (highScore old =? highScore new).
Qed.

Lemma agent_mount_inv (st : Storage) : agent_inv (mount st).
Proof.
  split; simpl; try done.
  - by intros c ->%list_elem_of_singleton.
  - auto with snake.
  - by destruct (getItem_or_0 st).
Qed.

Lemma agent_saveHighScore_inv (sc hs : Z) (s : State) :
  agent_inv s → agent_inv (saveHighScore sc hs s).
Proof.
  intros I. unfold saveHighScore. case_match; [| done].
  destruct I. by split.
Qed.

Lemma agent_reset_inv (rx ry : Random) (s : State) :
  agent_inv s → agent_inv (reset rx ry s).
Proof.
  intros I. split; simpl; try done.
  - by intros c ->%list_elem_of_singleton.
  - auto with snake.
  - apply (ainv_stored s I).
  - apply agent_randomApple_on_board.
Qed.

Lemma agent_handleKey_inv (k : Key) (s : State) :
  agent_inv s → agent_inv (handleKey k s).
Proof.
  intros I. destruct I.
  destruct k; simpl; try done; try case_match; try done; split; simpl;
    auto with snake.
Qed.

Lemma agent_update_inv (rx ry : Random) (s s' : State) :
  agent_inv s → update rx ry s = Some s' → agent_inv s'.
Proof.
  intros I Hu.
  destruct (snakeRef s) as [| h0 tl] eqn:Hsnake; [by destruct (ainv_snake s I) |].
  pose proof (agent_newHead_on_board h0 s) as Hh.
  destruct (decide (newHead h0 s ∈ snakeRef s)) as [Hin | Hout].
  - rewrite (agent_update_game_over rx ry s h0 tl Hsnake Hin) in Hu.
    injection Hu as <-. by apply agent_reset_inv, agent_saveHighScore_inv.
  - destruct I as [Hne Hboard Hvel Hscore Href Hst Happle].
    destruct (decide (newHead h0 s = appleRef s)) as [Heat | Hmove].
    + rewrite (agent_update_eat rx ry s h0 tl Hsnake Hout Heat) in Hu.
      injection Hu as <-. split; simpl; try done.
      * intros c [-> | Hc]%elem_of_cons; [done | by apply Hboard].
      * rewrite Hscore. lia.
      * apply agent_randomApple_on_board.
    + rewrite (agent_update_move rx ry s h0 tl Hsnake Hout Hmove) in Hu.
      injection Hu as <-. split; simpl; try done.
      * rewrite Hsnake. by destruct tl.
      * intros c [-> | Hc]%elem_of_pop_cons; [done | by apply Hboard].
      * by rewrite pop_length.
Qed.

Lemma agent_step_inv (e : Event) (s s' : State) :
  agent_inv s → step e s = Some s' → agent_inv s'.
Proof.
  intros I Hstep. destruct e as [rx ry | k | | rx ry]; simpl in Hstep.
  - unfold frame in Hstep. destruct (running s); [| by injection Hstep as <-].
    destruct (update rx ry s) as [s1 |] eqn:Hu; [| done].
    injection Hstep as <-. by eapply agent_commit_inv, agent_update_inv.
  - injection Hstep as <-. by apply agent_commit_inv, agent_handleKey_inv.
  - injection Hstep as <-. apply agent_commit_inv. destruct I. by split.
  - injection Hstep as <-.
    by apply agent_commit_inv, agent_reset_inv, agent_saveHighScore_inv.
Qed.

(** Every state of a mounted component satisfies the invariant. *)
Lemma agent_reachable_inv (s : State) : reachable s → agent_inv s.
Proof.
  induction 1 as [st | e s s' _ IH Hstep].
  - apply agent_mount_inv.
  - by eapply agent_step_inv.
Qed.

(** From a state of a mounted component [update] always has a result. *)
Lemma agent_update_total (rx ry : Random) (s : State) :
  agent_inv s → is_Some (update rx ry s).
Proof.
  intros I. unfold update. destruct (snakeRef s) eqn:E; [by destruct (ainv_snake s I) |].
  simpl. by repeat case_match.
Qed.

End agent_invariant.

(** ** Runs stay among the reachable states *)

Lemma chatgpt_run_reachable (es : list ChatGPT.Event) (s s' : ChatGPT.State) :
  ChatGPT.reachable s → chatgpt_run es s = Some s' → ChatGPT.reachable s'.
Proof.
  revert s. induction es as [| e es IH]; intros s Hs Hrun; simpl in Hrun.
  - by injection Hrun as <-.
  - destruct (ChatGPT.step e s) as [s1 |] eqn:Hstep; [| done].
    eapply IH; [| exact Hrun]. by eapply ChatGPT.reachable_step.
Qed.

Lemma agent_run_reachable (es : list Agent.Event) (s s' : Agent.State) :
  Agent.reachable s → agent_run es s = Some s' → Agent.reachable s'.
Proof.
  revert s. induction es as [| e es IH]; intros s Hs Hrun; simpl in Hrun.
  - by injection Hrun as <-.
  - destruct (Agent.step e s) as [s1 |] eqn:Hstep; [| done].
    eapply IH; [| exact Hrun]. by eapply Agent.reachable_step.
Qed.

(** ** The tick that detects a self-collision *)

(** C1, as stated, fails on snake-game-agent: on the curled snake the tick
    detects the collision, and afterwards the game is running again on a
    one-cell snake with score 0 and speed 8. *)
Lemma C1_agent_collision_restarts :
  Agent.newHead {| x := 5; y := 5 |} agent_curled ∈ Agent.snakeRef agent_curled ∧
  ∃ s', Agent.update half half agent_curled = Some s' ∧
        Agent.running s' = true ∧
        Agent.snakeRef s' ≠ Agent.snakeRef agent_curled ∧
        Agent.score s' ≠ Agent.score agent_curled ∧
        Agent.speedRef s' ≠ Agent.speedRef agent_curled ∧
        Agent.appleRef s' ≠ Agent.appleRef agent_curled.
Proof.
  split; [by apply hits_elem_of |].
  eexists. split; [reflexivity |]. by vm_compute.
Qed.

(** C1, amended.  When the new head is on the snake:
    - in snake-game-chatgpt the tick ends the run: [running] becomes false,
      the snake, score, speed and food are unchanged, and the high score
      becomes the maximum of its prior value and the score (so it changes only
      if the score exceeded it);
    - in snake-game-agent the tick restarts the game at once: one-cell snake
      at (10,10), velocity (1,0), score 0, speed 8, a fresh random apple,
      still running; when the loop's closure holds the current score and high
      score, the high score becomes the maximum of its prior value and the
      score. *)
Theorem C1_collision_tick :
  (∀ r s head tl,
     ChatGPT.snake s = head :: tl →
     ChatGPT.newHead head s ∈ ChatGPT.snake s →
     ∃ s', ChatGPT.tick r s = Some s' ∧
       ChatGPT.running s' = false ∧
       ChatGPT.snake s' = ChatGPT.snake s ∧
       ChatGPT.score s' = ChatGPT.score s ∧
       ChatGPT.speed s' = ChatGPT.speed s ∧
       ChatGPT.food s' = ChatGPT.food s ∧
       ChatGPT.highScore s' = Z.max (ChatGPT.highScore s) (ChatGPT.score s) ∧
       (ChatGPT.highScore s' ≠ ChatGPT.highScore s →
        ChatGPT.highScore s < ChatGPT.score s)) ∧
  (∀ rx ry s h0 tl,
     Agent.snakeRef s = h0 :: tl →
     Agent.newHead h0 s ∈ Agent.snakeRef s →
     ∃ s', Agent.update rx ry s = Some s' ∧
       Agent.running s' = true ∧
       Agent.snakeRef s' = [ {| x := 10; y := 10 |} ] ∧
       Agent.velocityRef s' = {| x := 1; y := 0 |} ∧
       Agent.score s' = 0 ∧ Agent.scoreRef s' = 0 ∧
       Agent.speedRef s' = 8 ∧
       Agent.appleRef s' = Agent.randomApple rx ry ∧
       (Agent.scoreRef s = Agent.score s →
        Agent.loop_score s = Agent.score s →
        Agent.loop_highScore s = Agent.highScore s →
        Agent.highScore s' = Z.max (Agent.highScore s) (Agent.score s))).
Proof.
  split.
  - intros r s head tl Hsnake Hin. eexists.
    split; [by eapply chatgpt_tick_game_over |]. simpl. repeat split; lia.
  - intros rx ry s h0 tl Hsnake Hin. eexists.
    split; [by eapply agent_update_game_over |].
    unfold Agent.gameOver. simpl. repeat split.
    intros Href Hsc Hhs. unfold Agent.saveHighScore. rewrite Href, Hsc, Hhs.
    destruct (Agent.score s =? 0), (Agent.score s >? Agent.highScore s) eqn:E;
      simpl; lia.
Qed.

(** C1 at sample inputs: the curled snake of either component turns into its
    own body. *)
Lemma C1_collision_tick_witness :
  (∃ s', ChatGPT.tick half chatgpt_curled = Some s' ∧
     ChatGPT.running s' = false ∧
     ChatGPT.snake s' = ChatGPT.snake chatgpt_curled ∧
     ChatGPT.highScore s' = 2) ∧
  (∃ s', Agent.update half half agent_curled = Some s' ∧
     Agent.snakeRef s' = [ {| x := 10; y := 10 |} ] ∧
     Agent.highScore s' = 5).
Proof.
  destruct C1_collision_tick as [Hc Ha]. split.
  - destruct (Hc half chatgpt_curled _ _ eq_refl) as (s' & Ht & Hr & Hs & _ & _ & _ & Hh & _).
    { by apply hits_elem_of. }
    exists s'. by repeat split.
  - destruct (Ha half half agent_curled _ _ eq_refl) as (s' & Ht & _ & Hs & _ & _ & _ & _ & _ & Hh).
    { by apply hits_elem_of. }
    exists s'. repeat split; [done | done |]. by apply Hh.
Defined.

(** ** Where the food is after a tick *)




(** ** Direction changes *)

(** C3 at its failing input.  snake-game-agent, from a fresh page: the snake
    eats the first apple while moving left and is two cells long,
    [(5,5); (6,5)].  Before the next frame the player presses ArrowUp, then
    ArrowRight: each press passes the test against the velocity the press
    before left, so the velocity becomes (1,0), the negation of the (-1,0)
    that the last tick applied, and the next tick runs the head into (6,5). *)
Theorem C3_agent_two_keys_reverse :
  ∃ s1 s2,
    agent_run (agent_to_first_apple ++ [Agent.EFrame half half])
              (Agent.mount no_store) = Some s1 ∧
    Agent.velocityRef s1 = {| x := -1; y := 0 |} ∧
    Agent.snakeRef s1 = [ {| x := 5; y := 5 |}; {| x := 6; y := 5 |} ] ∧
    agent_run [Agent.EKey Agent.ArrowUp; Agent.EKey Agent.ArrowRight] s1 = Some s2 ∧
    Agent.velocityRef s2 = negate (Agent.velocityRef s1) ∧
    Agent.newHead {| x := 5; y := 5 |} s2 = {| x := 6; y := 5 |} ∧
    Agent.update half half s2 = Some (Agent.gameOver half half s2).
Proof.
  eexists. eexists. split; [vm_compute; reflexivity |].
  split; [done |]. split; [done |]. split; [vm_compute; reflexivity |].
  by vm_compute.
Qed.

(** In both components a request for the exact negation of the active
    direction changes nothing. *)
Lemma reversal_request_ignored :
  (∀ d s, d = negate (ChatGPT.dir s) → ChatGPT.trySetDir d s = s) ∧
  (∀ s, Agent.velocityRef s = negate {| x := 0; y := -1 |} →
        Agent.handleKey Agent.ArrowUp s = s) ∧
  (∀ s, Agent.velocityRef s = negate {| x := 0; y := 1 |} →
        Agent.handleKey Agent.ArrowDown s = s) ∧
  (∀ s, Agent.velocityRef s = negate {| x := -1; y := 0 |} →
        Agent.handleKey Agent.ArrowLeft s = s) ∧
  (∀ s, Agent.velocityRef s = negate {| x := 1; y := 0 |} →
        Agent.handleKey Agent.ArrowRight s = s).
Proof.
  split.
  - intros d s Hd%opposite_true. unfold ChatGPT.trySetDir. by rewrite Hd.
  - repeat split; intros s Hv; unfold Agent.handleKey; by rewrite Hv.
Qed.

(** A request to go left while moving right, in either component. *)
Lemma reversal_request_ignored_witness :
  ChatGPT.trySetDir {| x := -1; y := 0 |} chatgpt_fed = chatgpt_fed ∧
  Agent.handleKey Agent.ArrowLeft agent_square = agent_square.
Proof.
  destruct reversal_request_ignored as (Hc & _ & _ & Hl & _).
  split; [by apply Hc | by apply Hl].
Defined.

Lemma chatgpt_no_reversal_inv (r : Random) (s s1 : ChatGPT.State)
    (requests : list Point) :
  chatgpt_inv s →
  ChatGPT.tick r s = Some s1 →
  ChatGPT.currentDir (foldl (λ st d, ChatGPT.trySetDir d st) s1 requests)
  ≠ negate (ChatGPT.currentDir s).
Proof.
  intros I Ht.
  assert (ChatGPT.dir s1 = ChatGPT.currentDir s ∧ ChatGPT.nextDir s1 = None)
    as [Hdir Hnext].
  { unfold ChatGPT.tick in Ht. destruct (ChatGPT.snake s); [done |].
    repeat case_match; by injection Ht as <-. }
  pose proof (unit_dir_not_self_opposite _ (chatgpt_currentDir_unit s I)) as Hself.
  rewrite <- Hdir in *. clear Hdir Ht I.
  assert (∀ d, ChatGPT.nextDir s1 = Some d → d ≠ negate (ChatGPT.dir s1)) as Hq
    by (by rewrite Hnext).
  clear Hnext. revert s1 Hself Hq.
  induction requests as [| d ds IH]; intros s1 Hself Hq; simpl.
  - unfold ChatGPT.currentDir. destruct (ChatGPT.nextDir s1) eqn:E; simpl; auto.
  - assert (ChatGPT.dir (ChatGPT.trySetDir d s1) = ChatGPT.dir s1) as Hd
      by (unfold ChatGPT.trySetDir; by case_match).
    rewrite <- Hd. apply IH; rewrite Hd; [done |].
    unfold ChatGPT.trySetDir. destruct (opposite (ChatGPT.dir s1) d) eqn:E; [done |].
    simpl. intros ? [= <-] Hopp%opposite_true. congruence.
Qed.

(** In a mounted snake-game-chatgpt the direction a tick applies is never the
    negation of the direction the tick before applied, whatever direction
    requests arrive between the two: requests are tested against [dir],
    which only a tick changes, and queued. *)
Theorem chatgpt_no_instant_reversal (r : Random) (s s1 : ChatGPT.State)
    (requests : list Point) :
  ChatGPT.reachable s →
  ChatGPT.tick r s = Some s1 →
  ChatGPT.currentDir (foldl (λ st d, ChatGPT.trySetDir d st) s1 requests)
  ≠ negate (ChatGPT.currentDir s).
Proof. intros Hs%chatgpt_reachable_inv. by apply chatgpt_no_reversal_inv. Qed.

(** Up, then left, requested between the first two ticks of a snake moving
    right: the request to go left is refused, and the second tick goes up. *)
Lemma chatgpt_no_instant_reversal_witness :
  ∃ s1, ChatGPT.tick half (ChatGPT.init half no_store) = Some s1 ∧
        ChatGPT.currentDir
          (ChatGPT.trySetDir {| x := -1; y := 0 |}
             (ChatGPT.trySetDir {| x := 0; y := -1 |} s1))
        = {| x := 0; y := -1 |} ∧
        ChatGPT.currentDir
          (ChatGPT.trySetDir {| x := -1; y := 0 |}
             (ChatGPT.trySetDir {| x := 0; y := -1 |} s1))
        ≠ negate (ChatGPT.currentDir (ChatGPT.init half no_store)).
Proof.
  assert (∃ s1, ChatGPT.tick half (ChatGPT.init half no_store) = Some s1 ∧
                ChatGPT.dir s1 = {| x := 1; y := 0 |} ∧
                ChatGPT.nextDir s1 = None) as (s1 & Ht & Hd & Hn)
    by (eexists; vm_compute; done).
  exists s1. split; [done |]. split.
  - unfold ChatGPT.trySetDir at 2. rewrite Hd.
    change (opposite {| x := 1; y := 0 |} {| x := 0; y := -1 |}) with false.
    unfold ChatGPT.trySetDir. by simpl.
  - exact (chatgpt_no_instant_reversal half (ChatGPT.init half no_store) s1
             [ {| x := 0; y := -1 |}; {| x := -1; y := 0 |} ]
             (ChatGPT.reachable_init half no_store) Ht).
Defined.

(** ** Growth, the tail cell, wrap-around *)

Lemma head_pop_cons (h : Point) (l : list Point) :
  l ≠ [] → head (pop (h :: l)) = Some h.
Proof. by destruct l. Qed.

(** C4.  In both components, a tick whose new head is not on the snake makes
    the snake one cell longer and the score one higher when the new head is
    the food cell, and leaves both the length and the score as they were
    otherwise. *)
Theorem C4_growth_law :
  (∀ r s head tl,
     ChatGPT.snake s = head :: tl →
     ChatGPT.newHead head s ∉ ChatGPT.snake s →
     ∃ s', ChatGPT.tick r s = Some s' ∧
       (ChatGPT.newHead head s = ChatGPT.food s →
        length (ChatGPT.snake s') = S (length (ChatGPT.snake s)) ∧
        ChatGPT.score s' = ChatGPT.score s + 1) ∧
       (ChatGPT.newHead head s ≠ ChatGPT.food s →
        length (ChatGPT.snake s') = length (ChatGPT.snake s) ∧
        ChatGPT.score s' = ChatGPT.score s)) ∧
  (∀ rx ry s h0 tl,
     Agent.snakeRef s = h0 :: tl →
     Agent.newHead h0 s ∉ Agent.snakeRef s →
     ∃ s', Agent.update rx ry s = Some s' ∧
       (Agent.newHead h0 s = Agent.appleRef s →
        length (Agent.snakeRef s') = S (length (Agent.snakeRef s)) ∧
        Agent.score s' = Agent.score s + 1) ∧
       (Agent.newHead h0 s ≠ Agent.appleRef s →
        length (Agent.snakeRef s') = length (Agent.snakeRef s) ∧
        Agent.score s' = Agent.score s)).
Proof.
  split.
  - intros r s head tl Hsnake Hout.
    destruct (decide (ChatGPT.newHead head s = ChatGPT.food s)) as [Heat | Hmove].
    + eexists. split; [by eapply chatgpt_tick_eat |]. by split.
    + eexists. split; [by eapply chatgpt_tick_move |]. simpl.
      rewrite pop_length. by split.
  - intros rx ry s h0 tl Hsnake Hout.
    destruct (decide (Agent.newHead h0 s = Agent.appleRef s)) as [Heat | Hmove].
    + eexists. split; [by eapply agent_update_eat |]. by split.
    + eexists. split; [by eapply agent_update_move |]. simpl.
      rewrite pop_length. by split.
Qed.

(** C4 at sample inputs: a meal and a plain move in each component. *)
Lemma C4_growth_law_witness :
  (∃ s', ChatGPT.tick half chatgpt_fed = Some s' ∧
         length (ChatGPT.snake s') = 4%nat ∧ ChatGPT.score s' = 1) ∧
  (∃ s', ChatGPT.tick half chatgpt_at_border = Some s' ∧
         length (ChatGPT.snake s') = 3%nat ∧ ChatGPT.score s' = 0) ∧
  (∃ s', Agent.update half half agent_at_first_apple = Some s' ∧
         length (Agent.snakeRef s') = 2%nat ∧ Agent.score s' = 1) ∧
  (∃ s', Agent.update half half (Agent.mount no_store) = Some s' ∧
         length (Agent.snakeRef s') = 1%nat ∧ Agent.score s' = 0).
Proof.
  destruct C4_growth_law as [Hc Ha]. split; [| split; [| split]].
  - destruct (Hc half chatgpt_fed _ _ eq_refl) as (s' & Ht & Heat & _).
    { apply hits_false. by vm_compute. }
    exists s'. split; [done |]. apply Heat. by vm_compute.
  - destruct (Hc half chatgpt_at_border _ _ eq_refl) as (s' & Ht & _ & Hmove).
    { apply hits_false. by vm_compute. }
    exists s'. split; [done |]. apply Hmove. by vm_compute.
  - destruct (Ha half half agent_at_first_apple _ _ eq_refl) as (s' & Ht & Heat & _).
    { apply hits_false. by vm_compute. }
    exists s'. split; [done |]. apply Heat. by vm_compute.
  - destruct (Ha half half (Agent.mount no_store) _ _ eq_refl) as (s' & Ht & _ & Hmove).
    { apply hits_false. by vm_compute. }
    exists s'. split; [done |]. apply Hmove. by vm_compute.
Defined.

(** C5, as stated, fails on snake-game-agent.  From a fresh page the snake
    eats three apples and curls into a square, the head at (5,5) about to
    move right into (6,5), the cell of its tail.  The tick registers the
    collision but is not terminal: afterwards the game is running again, on
    a one-cell snake at score 0. *)
Lemma C5_agent_tail_collision_restarts :
  agent_run agent_to_square (Agent.mount no_store) = Some agent_square ∧
  Agent.reachable agent_square ∧
  last (Agent.snakeRef agent_square)
  = Some (Agent.newHead {| x := 5; y := 5 |} agent_square) ∧
  Agent.score agent_square = 3 ∧
  ∃ s', Agent.step (Agent.EFrame half half) agent_square = Some s' ∧
        Agent.running s' = true ∧
        Agent.snakeRef s' = [ {| x := 10; y := 10 |} ] ∧
        Agent.score s' = 0.
Proof.
  assert (agent_run agent_to_square (Agent.mount no_store) = Some agent_square)
    as Hrun by (by vm_compute).
  split; [done |]. split.
  { apply (agent_run_reachable agent_to_square (Agent.mount no_store));
      [apply Agent.reachable_mount | done]. }
  split; [done |]. split; [done |].
  eexists. split; [vm_compute; reflexivity |]. by repeat split.
Qed.

(** C5, amended.  In both components the collision test ranges over every
    cell of the snake as it is before the move, the last one included: when
    the new head is the current tail cell, the tick registers a
    self-collision, although it would have vacated that cell.
    - In snake-game-chatgpt that tick is terminal: [running] becomes false,
      the snake, score, speed and food are unchanged, and the high score
      becomes the maximum of its prior value and the score.
    - In snake-game-agent that tick is not terminal: it restarts the game at
      once (one-cell snake at (10,10), velocity (1,0), score 0, speed 8, a
      fresh random apple, still running); when the loop's closure holds the
      current score and high score, the high score becomes the maximum of
      its prior value and the score. *)
Theorem C5_tail_cell_counts :
  (∀ l h, ChatGPT.hits l h = true ↔ h ∈ l) ∧
  (∀ r s head tl,
     ChatGPT.snake s = head :: tl →
     last (ChatGPT.snake s) = Some (ChatGPT.newHead head s) →
     ChatGPT.tick r s = Some (ChatGPT.handleGameOver (ChatGPT.applyQueuedDir s)) ∧
     ChatGPT.running (ChatGPT.handleGameOver (ChatGPT.applyQueuedDir s)) = false ∧
     ChatGPT.snake (ChatGPT.handleGameOver (ChatGPT.applyQueuedDir s))
     = ChatGPT.snake s ∧
     ChatGPT.score (ChatGPT.handleGameOver (ChatGPT.applyQueuedDir s))
     = ChatGPT.score s ∧
     ChatGPT.speed (ChatGPT.handleGameOver (ChatGPT.applyQueuedDir s))
     = ChatGPT.speed s ∧
     ChatGPT.food (ChatGPT.handleGameOver (ChatGPT.applyQueuedDir s))
     = ChatGPT.food s ∧
     ChatGPT.highScore (ChatGPT.handleGameOver (ChatGPT.applyQueuedDir s))
     = Z.max (ChatGPT.highScore s) (ChatGPT.score s)) ∧
  (∀ l h, Agent.hits l h = true ↔ h ∈ l) ∧
  (∀ rx ry s h0 tl,
     Agent.snakeRef s = h0 :: tl →
     last (Agent.snakeRef s) = Some (Agent.newHead h0 s) →
     Agent.update rx ry s = Some (Agent.gameOver rx ry s) ∧
     Agent.running (Agent.gameOver rx ry s) = true ∧
     Agent.snakeRef (Agent.gameOver rx ry s) = [ {| x := 10; y := 10 |} ] ∧
     Agent.velocityRef (Agent.gameOver rx ry s) = {| x := 1; y := 0 |} ∧
     Agent.score (Agent.gameOver rx ry s) = 0 ∧
     Agent.scoreRef (Agent.gameOver rx ry s) = 0 ∧
     Agent.speedRef (Agent.gameOver rx ry s) = 8 ∧
     Agent.appleRef (Agent.gameOver rx ry s) = Agent.randomApple rx ry ∧
     (Agent.scoreRef s = Agent.score s →
      Agent.loop_score s = Agent.score s →
      Agent.loop_highScore s = Agent.highScore s →
      Agent.highScore (Agent.gameOver rx ry s)
      = Z.max (Agent.highScore s) (Agent.score s))).
Proof.
  split; [apply hits_elem_of |]. split; [| split; [apply hits_elem_of |]].
  - intros r s head tl Hsnake Hlast%last_Some_elem_of.
    split; [by eapply chatgpt_tick_game_over | done].
  - intros rx ry s h0 tl Hsnake Hlast%last_Some_elem_of.
    split; [by eapply agent_update_game_over |].
    unfold Agent.gameOver. simpl. repeat split.
    intros Href Hsc Hhs. unfold Agent.saveHighScore. rewrite Href, Hsc, Hhs.
    destruct (Agent.score s =? 0), (Agent.score s >? Agent.highScore s) eqn:E;
      simpl; lia.
Qed.

(** C5 at sample inputs: the square snake of either component turns into its
    own tail cell; in snake-game-agent after a pause and a resume, so that
    the loop holds the current score. *)
Lemma C5_tail_cell_counts_witness :
  (∃ s', ChatGPT.tick half chatgpt_square = Some s' ∧
         ChatGPT.running s' = false ∧
         ChatGPT.snake s' = ChatGPT.snake chatgpt_square ∧
         ChatGPT.highScore s' = 7) ∧
  (∃ s s', agent_run (agent_to_square ++ [Agent.EPauseButton; Agent.EPauseButton])
                     (Agent.mount no_store) = Some s ∧
           Agent.snakeRef s = Agent.snakeRef agent_square ∧
           Agent.update half half s = Some s' ∧
           Agent.running s' = true ∧
           Agent.snakeRef s' = [ {| x := 10; y := 10 |} ] ∧
           Agent.score s' = 0 ∧
           Agent.highScore s' = 3).
Proof.
  destruct C5_tail_cell_counts as (_ & Hc & _ & Ha). split.
  - destruct (Hc half chatgpt_square _ _ eq_refl eq_refl)
      as (Ht & Hr & Hs & _ & _ & _ & Hh).
    eexists. split; [exact Ht |]. by repeat split.
  - destruct (agent_run (agent_to_square ++ [Agent.EPauseButton; Agent.EPauseButton])
                (Agent.mount no_store)) as [s |] eqn:Hrun; [| by vm_compute in Hrun].
    assert (Agent.snakeRef s = Agent.snakeRef agent_square ∧
            Agent.velocityRef s = {| x := 1; y := 0 |} ∧
            Agent.scoreRef s = Agent.score s ∧
            Agent.loop_score s = Agent.score s ∧
            Agent.loop_highScore s = Agent.highScore s ∧
            Agent.score s = 3 ∧ Agent.highScore s = 0)
      as (Hsnake & Hv & Href & Hls & Hlh & Hscore & Hhigh)
      by (vm_compute in Hrun; by injection Hrun as <-).
    destruct (Ha half half s {| x := 5; y := 5 |}
                [ {| x := 5; y := 6 |}; {| x := 6; y := 6 |}; {| x := 6; y := 5 |} ]
                Hsnake)
      as (Hu & Hr & Hs & _ & Hsc & _ & _ & _ & Hh).
    { rewrite Hsnake. unfold Agent.newHead. by rewrite Hv. }
    exists s, (Agent.gameOver half half s). split; [done |]. split; [done |].
    split; [exact Hu |]. split; [exact Hr |]. split; [exact Hs |].
    split; [exact Hsc |]. rewrite (Hh Href Hls Hlh), Hscore, Hhigh. done.
Defined.

Section agent_wrap.
Import Agent.

(** On a coordinate of the board moved by at most one cell, the wrap-around
    tests compute the modulo. *)
Lemma agent_wrap_modulo (n d : Z) :
  0 ≤ n < ROWS → -1 ≤ d ≤ 1 → wrap (n + d) = (n + d) mod ROWS.
Proof.
  unfold wrap. change ROWS with 20. intros Hn Hd.
  destruct (Z.ltb_spec (n + d) 0).
  - assert (n + d = -1) as -> by lia. done.
  - destruct (Z.geb_spec (n + d) 20).
    + assert (n + d = 20) as -> by lia. done.
    + by rewrite Z.mod_small by lia.
Qed.

End agent_wrap.

(** C6.  The new head is the head plus the direction of the tick, each
    coordinate modulo the size of the grid: in snake-game-chatgpt for every
    head and state, in snake-game-agent for every head on the board and every
    one of the four directions, hence in every state of a mounted component.
    A head at (COLS-1, r) moving in direction (1,0) goes to (0, r).  No tick
    ends at a wall: whenever the new head is not on the snake, the tick
    leaves [running] as it is and the new head leads the snake. *)
Theorem C6_wraparound :
  (∀ h0 s,
     ChatGPT.newHead h0 s =
     {| x := (x h0 + x (ChatGPT.currentDir s)) mod ChatGPT.GRID_COLS;
        y := (y h0 + y (ChatGPT.currentDir s)) mod ChatGPT.GRID_ROWS |}) ∧
  (∀ s row,
     0 ≤ row < ChatGPT.GRID_ROWS → ChatGPT.currentDir s = {| x := 1; y := 0 |} →
     ChatGPT.newHead {| x := ChatGPT.GRID_COLS - 1; y := row |} s
     = {| x := 0; y := row |}) ∧
  (∀ r s h0 tl,
     ChatGPT.snake s = h0 :: tl →
     ChatGPT.newHead h0 s ∉ ChatGPT.snake s →
     ∃ s', ChatGPT.tick r s = Some s' ∧
           ChatGPT.running s' = ChatGPT.running s ∧
           head (ChatGPT.snake s') = Some (ChatGPT.newHead h0 s)) ∧
  (∀ h s,
     on_board h → unit_dir (Agent.velocityRef s) →
     Agent.newHead h s =
     {| x := (x h + x (Agent.velocityRef s)) mod Agent.ROWS;
        y := (y h + y (Agent.velocityRef s)) mod Agent.ROWS |}) ∧
  (∀ s h0 tl,
     Agent.reachable s → Agent.snakeRef s = h0 :: tl →
     Agent.newHead h0 s =
     {| x := (x h0 + x (Agent.velocityRef s)) mod Agent.ROWS;
        y := (y h0 + y (Agent.velocityRef s)) mod Agent.ROWS |}) ∧
  (∀ s row,
     0 ≤ row < Agent.ROWS → Agent.velocityRef s = {| x := 1; y := 0 |} →
     Agent.newHead {| x := Agent.ROWS - 1; y := row |} s = {| x := 0; y := row |}) ∧
  (∀ rx ry s h0 tl,
     Agent.snakeRef s = h0 :: tl →
     Agent.newHead h0 s ∉ Agent.snakeRef s →
     ∃ s', Agent.update rx ry s = Some s' ∧
           Agent.running s' = Agent.running s ∧
           head (Agent.snakeRef s') = Some (Agent.newHead h0 s)).
Proof.
  assert (∀ h s, on_board h → unit_dir (Agent.velocityRef s) →
     Agent.newHead h s =
     {| x := (x h + x (Agent.velocityRef s)) mod Agent.ROWS;
        y := (y h + y (Agent.velocityRef s)) mod Agent.ROWS |}) as Hagent.
  { intros h s [Hx Hy] [Hvx Hvy]%unit_dir_bounds. unfold Agent.newHead.
    by rewrite !agent_wrap_modulo. }
  split; [| split; [| split; [| split; [| split; [| split]]]]].
  - intros h0 s. unfold ChatGPT.newHead. by rewrite !mod__modulo.
  - intros s row Hrow Hdir. unfold ChatGPT.newHead. rewrite Hdir, !mod__modulo by done.
    simpl. f_equal. rewrite Z.add_0_r. by apply Z.mod_small.
  - intros r s h0 tl Hsnake Hout.
    destruct (decide (ChatGPT.newHead h0 s = ChatGPT.food s)) as [Heat | Hmove].
    + eexists. split; [by eapply chatgpt_tick_eat |]. by split.
    + eexists. split; [by eapply chatgpt_tick_move |]. simpl.
      split; [done |]. apply head_pop_cons. by rewrite Hsnake.
  - exact Hagent.
  - intros s h0 tl I%agent_reachable_inv Hsnake. apply Hagent.
    + apply (ainv_board s I). rewrite Hsnake. left.
    + apply (ainv_velocity s I).
  - intros s row Hrow Hv. unfold Agent.newHead. rewrite Hv. simpl.
    f_equal. rewrite Z.add_0_r. unfold Agent.wrap.
    destruct (Z.ltb_spec row 0); [lia |]. destruct (Z.geb_spec row Agent.ROWS); [lia | done].
  - intros rx ry s h0 tl Hsnake Hout.
    destruct (decide (Agent.newHead h0 s = Agent.appleRef s)) as [Heat | Hmove].
    + eexists. split; [by eapply agent_update_eat |]. by split.
    + eexists. split; [by eapply agent_update_move |]. simpl.
      split; [done |]. apply head_pop_cons. by rewrite Hsnake.
Qed.

(** C6 at sample inputs: a head on the right border moving right, in either
    component (for snake-game-agent also in a state reached from a fresh
    page). *)
Lemma C6_wraparound_witness :
  ChatGPT.newHead {| x := 19; y := 9 |} chatgpt_at_border = {| x := 0; y := 9 |} ∧
  (∃ s', ChatGPT.tick half chatgpt_at_border = Some s' ∧
         ChatGPT.running s' = true ∧
         head (ChatGPT.snake s') = Some {| x := 0; y := 9 |}) ∧
  Agent.newHead {| x := 19; y := 3 |} agent_square
  = {| x := (19 + 1) mod Agent.ROWS; y := (3 + 0) mod Agent.ROWS |} ∧
  Agent.newHead {| x := Agent.ROWS - 1; y := 3 |} agent_square = {| x := 0; y := 3 |} ∧
  (∃ s s', agent_run agent_to_border (Agent.mount no_store) = Some s ∧
           Agent.snakeRef s = [ {| x := 19; y := 10 |} ] ∧
           Agent.newHead {| x := 19; y := 10 |} s = {| x := 0; y := 10 |} ∧
           Agent.update half half s = Some s' ∧
           Agent.running s' = true ∧
           head (Agent.snakeRef s') = Some {| x := 0; y := 10 |}).
Proof.
  destruct C6_wraparound as (_ & Hc & Hct & Hab & Har & Haw & Hat).
  split; [| split; [| split; [| split]]].
  - by apply (Hc chatgpt_at_border 9).
  - destruct (Hct half chatgpt_at_border _ _ eq_refl) as (s' & Ht & Hr & Hh).
    { apply hits_false. by vm_compute. }
    exists s'. split; [done |]. by split.
  - apply (Hab {| x := 19; y := 3 |} agent_square); [by split |].
    unfold unit_dir. simpl. left.
  - by apply (Haw agent_square 3).
  - destruct (agent_run agent_to_border (Agent.mount no_store)) as [s |] eqn:Hrun;
      [| by vm_compute in Hrun].
    assert (Agent.reachable s) as Hs
      by (by eapply agent_run_reachable; [apply Agent.reachable_mount |]).
    vm_compute in Hrun. injection Hrun as Hrun.
    assert (Agent.snakeRef s = [ {| x := 19; y := 10 |} ]) as Hsnake by (by rewrite <- Hrun).
    pose proof (Har s _ _ Hs Hsnake) as Hnew.
    destruct (Hat half half s _ _ Hsnake) as (s' & Hu & Hr & Hh).
    { rewrite Hnew, <- Hrun. apply hits_false. by vm_compute. }
    exists s, s'. split; [done |]. split; [done |].
    assert (Agent.newHead {| x := 19; y := 10 |} s = {| x := 0; y := 10 |}) as E
      by (rewrite Hnew, <- Hrun; by vm_compute).
    split; [done |]. split; [done |]. split; [by rewrite Hr, <- Hrun |].
    by rewrite Hh, E.
Defined.

(** ** Food placement on a crowded grid *)

Lemma on_board_grid (c : Point) : on_board c ↔ c ∈ ChatGPT.grid.
Proof. by rewrite elem_of_grid. Qed.

(** A list that hits every cell of the grid covers it. *)
Lemma covers_grid (l : list Point) :
  forallb (λ c, existsb (λ s, same_cell s c) l) ChatGPT.grid = true →
  ChatGPT.grid ⊆ l.
Proof.
  intros H c Hc. rewrite forallb_forall in H.
  by apply hits_elem_of, H, list_elem_of_In.
Qed.

(** C7, as stated, fails on snake-game-agent: when the snake eats the apple on
    the last free cell, the grown snake covers the board, and with both draws
    equal to 0.5 the new apple is (10,10), not (0,0). *)
Lemma C7_agent_no_fallback :
  ∃ s', Agent.update half half agent_board_but_one = Some s' ∧
        (∀ c, on_board c → c ∈ Agent.snakeRef s') ∧
        Agent.appleRef s' = {| x := 10; y := 10 |} ∧
        Agent.appleRef s' ≠ {| x := 0; y := 0 |}.
Proof.
  eexists. split; [vm_compute; reflexivity |]. split; [| by split].
  intros c Hc%on_board_grid. revert c Hc. apply covers_grid. by vm_compute.
Qed.

(** C7, amended.  [placeFood] of snake-game-chatgpt has a result for every
    snake array and every draw: when the snake leaves no cell of the grid free
    it is the cell (0,0); otherwise the index it reads is inside [free] and
    the result is that cell of [free].  [randomApple] of snake-game-agent has
    a result for every pair of draws, a cell of the board; it takes no
    account of the snake and has no fallback. *)
Theorem C7_food_placement_total :
  (∀ r snakeArr,
     ChatGPT.grid ⊆ snakeArr →
     ChatGPT.free snakeArr = [] ∧
     ChatGPT.placeFood r snakeArr = {| x := 0; y := 0 |}) ∧
  (∀ r snakeArr,
     ¬ ChatGPT.grid ⊆ snakeArr →
     ∃ i, (i < length (ChatGPT.free snakeArr))%nat ∧
          i = Z.to_nat (random_below r (Z.of_nat (length (ChatGPT.free snakeArr)))) ∧
          ChatGPT.free snakeArr !! i = Some (ChatGPT.placeFood r snakeArr) ∧
          ChatGPT.placeFood r snakeArr ∈ ChatGPT.grid ∧
          (ChatGPT.placeFood r snakeArr ∉ snakeArr)) ∧
  (∀ rx ry, on_board (Agent.randomApple rx ry)).
Proof.
  split; [| split].
  - intros r snakeArr Hfull%free_nil. split; [done | by apply placeFood_fallback].
  - intros r snakeArr Hfree. rewrite <- free_nil in Hfree.
    eexists. split; [by apply free_index_in_range |]. split; [done |].
    split; [by apply placeFood_lookup |].
    by apply (placeFood_free r), elem_of_free in Hfree.
  - apply agent_randomApple_on_board.
Qed.

(** C7 at sample inputs: a snake array that covers the grid, and the initial
    snake. *)
Lemma C7_food_placement_total_witness :
  ChatGPT.placeFood half ChatGPT.grid = {| x := 0; y := 0 |} ∧
  ChatGPT.free ChatGPT.INITIAL_SNAKE !! 198%nat
  = Some (ChatGPT.placeFood half ChatGPT.INITIAL_SNAKE).
Proof.
  destruct C7_food_placement_total as (Hfull & Hfree & _). split.
  - by apply Hfull.
  - destruct (Hfree half ChatGPT.INITIAL_SNAKE) as (i & _ & Hi & Hl & _).
    + intros Hsub. assert ({| x := 0; y := 0 |} ∈ ChatGPT.INITIAL_SNAKE) as Hin
        by (by apply Hsub, elem_of_grid).
      apply hits_elem_of in Hin. by vm_compute in Hin.
    + rewrite <- Hl, Hi. f_equal.
Defined.

(** ** The persisted high score *)

Section chatgpt_store.
Import ChatGPT.

(** Only [handleGameOver] writes the store. *)
Lemma chatgpt_tick_store (r : Random) (s s' : State) :
  tick r s = Some s' →
  localStorage s' = localStorage s ∨
  (running s' = false ∧
   localStorage s' = setItem (Z.max (highScore s) (score s)) (localStorage s)).
Proof.
  unfold tick. destruct (snake s); [done |].
  repeat case_match; intros [= <-]; simpl; auto.
Qed.

Lemma chatgpt_step_store (e : Event) (s s' : State) :
  step e s = Some s' →
  localStorage s' = localStorage s ∨
  (∃ r, e = ETick r ∧ running s = true ∧ running s' = false ∧
        localStorage s' = setItem (Z.max (highScore s) (score s)) (localStorage s)).
Proof.
  destruct e as [r | k r | w | | r]; simpl.
  - destruct (running s) eqn:Hrun; [| intros [= <-]; by left].
    intros [-> | [Hoff ->]]%chatgpt_tick_store; [by left | right]. by exists r.
  - intros [= <-]. left. destruct k; simpl; try done; unfold trySetDir; by case_match.
  - intros [= <-]. left. destruct w; simpl; unfold trySetDir; by case_match.
  - intros [= <-]. by left.
  - intros [= <-]. by left.
Qed.

End chatgpt_store.

Section agent_store.
Import Agent.

(** What the Restart button does to the high score and to the store: nothing
    when the score does not exceed the high score; otherwise the high score
    becomes the score, which is written twice, once by the handler and once
    by the effect on [highScore]. *)
Lemma agent_restart_highScore (rx ry : Random) (s : State) :
  agent_inv s →
  highScore (commit s (restartClick rx ry s)) = Z.max (highScore s) (score s).
Proof.
  intros I. simpl. unfold saveHighScore. rewrite (ainv_scoreRef s I).
  assert ((if score s =? 0 then score s else score s) = score s) as -> by (by case_match).
  destruct (Z.gtb_spec (score s) (highScore s)); simpl; lia.
Qed.

Lemma agent_restart_store (rx ry : Random) (s : State) :
  agent_inv s →
  localStorage (commit s (restartClick rx ry s)) =
  if score s >? highScore s
  then setItem (score s) (setItem (score s) (localStorage s))
  else localStorage s.
Proof.
  intros I. simpl. unfold saveHighScore. rewrite (ainv_scoreRef s I).
  assert ((if score s =? 0 then score s else score s) = score s) as -> by (by case_match).
  destruct (Z.gtb_spec (score s) (highScore s)); simpl.
  - by destruct (Z.eqb_spec (highScore s) (score s)); [lia |].
  - by rewrite Z.eqb_refl.
Qed.

(** Through a closure that holds the current score and high score, the
    game-over block is the Restart button's handler. *)
Lemma agent_gameOver_fresh (rx ry : Random) (s : State) :
  loop_score s = score s → loop_highScore s = highScore s →
  gameOver rx ry s = restartClick rx ry s.
Proof. intros Hsc Hhs. unfold gameOver, restartClick. by rewrite Hsc, Hhs. Qed.

End agent_store.

(** C8, as stated, fails on snake-game-chatgpt in both directions: the game
    over of the square snake, at score 1 under a stored high score of 7,
    calls [setItem]; and a restart of the curled snake, at score 2 over a
    stored high score of 1, ends the run without writing the store. *)
Lemma C8_chatgpt_writes_at_every_game_over :
  (∃ s', ChatGPT.tick half chatgpt_square = Some s' ∧
         ChatGPT.score chatgpt_square
         ≤ getItem_or_0 (ChatGPT.localStorage chatgpt_square) ∧
         setItem_calls (ChatGPT.localStorage s')
         = S (setItem_calls (ChatGPT.localStorage chatgpt_square))) ∧
  (getItem_or_0 (ChatGPT.localStorage chatgpt_curled)
   < ChatGPT.score chatgpt_curled ∧
   ChatGPT.score (ChatGPT.resetGame half chatgpt_curled) = 0 ∧
   ChatGPT.localStorage (ChatGPT.resetGame half chatgpt_curled)
   = ChatGPT.localStorage chatgpt_curled).
Proof.
  split.
  - eexists. split; [vm_compute; reflexivity |]. by vm_compute.
  - by vm_compute.
Qed.

Section agent_store_frame.
Import Agent.

Lemma agent_commit_store_same (old new : State) :
  highScore old = highScore new →
  localStorage (commit old new) = localStorage new.
Proof. intros E. simpl. by rewrite E, Z.eqb_refl. Qed.

(** Only the Restart button and a frame that detects a collision can write
    the store. *)
Lemma agent_step_store (e : Event) (s s' : State) :
  step e s = Some s' →
  localStorage s' ≠ localStorage s →
  (∃ rx ry, e = ERestartButton rx ry) ∨
  (∃ rx ry h0 tl, e = EFrame rx ry ∧ running s = true ∧
                  snakeRef s = h0 :: tl ∧ newHead h0 s ∈ snakeRef s).
Proof.
  destruct e as [rx ry | k | | rx ry]; simpl; intros Hstep Hne.
  - right. unfold frame in Hstep.
    destruct (running s) eqn:Hrun; [| injection Hstep as <-; by destruct Hne].
    destruct (snakeRef s) as [| h0 tl] eqn:Hsnake;
      [by unfold update in Hstep; rewrite Hsnake in Hstep |].
    exists rx, ry, h0, tl. repeat split; try done.
    destruct (decide (newHead h0 s ∈ h0 :: tl)) as [| Hout]; [done |].
    rewrite <- Hsnake in Hout. destruct Hne.
    destruct (decide (newHead h0 s = appleRef s)) as [Heat | Hmove].
    + rewrite (agent_update_eat rx ry s h0 tl Hsnake Hout Heat) in Hstep.
      injection Hstep as <-. by rewrite agent_commit_store_same.
    + rewrite (agent_update_move rx ry s h0 tl Hsnake Hout Hmove) in Hstep.
      injection Hstep as <-. by rewrite agent_commit_store_same.
  - injection Hstep as <-. destruct Hne. rewrite agent_commit_store_same.
    + destruct k; simpl; try done; by case_match.
    + destruct k; simpl; try done; by case_match.
  - injection Hstep as <-. destruct Hne. by rewrite agent_commit_store_same.
  - left. by exists rx, ry.
Qed.

End agent_store_frame.

(** C8, amended.
    - snake-game-chatgpt reads the store once, at load, with default 0.  Every
      game over writes it, with the maximum of the high score and the score
      of the run, and no other event writes it (a restart does not).  So over
      the events of a mounted component the stored value never decreases, and
      it changes only at a game over whose score exceeds it.
    - snake-game-agent reads the store at mount, with default 0, and holds
      that value afterwards.  The Restart button, and a game over seen
      through a closure that holds the current score and high score, leave
      the store alone when the score does not exceed the high score and write
      the score otherwise (twice: in the handler and in the effect on
      [highScore]).  Key presses, the Pause button and ticks without a
      collision write nothing. *)
Theorem C8_high_score_store :
  (∀ r st,
     ChatGPT.highScore (ChatGPT.init r st) = getItem_or_0 st ∧
     ChatGPT.localStorage (ChatGPT.init r st) = st) ∧
  (∀ r s h0 tl,
     ChatGPT.snake s = h0 :: tl →
     ChatGPT.newHead h0 s ∈ ChatGPT.snake s →
     ∃ s', ChatGPT.tick r s = Some s' ∧
           ChatGPT.localStorage s'
           = setItem (Z.max (ChatGPT.highScore s) (ChatGPT.score s))
                     (ChatGPT.localStorage s)) ∧
  (∀ e s s',
     ChatGPT.reachable s → ChatGPT.step e s = Some s' →
     getItem_or_0 (ChatGPT.localStorage s) ≤ getItem_or_0 (ChatGPT.localStorage s') ∧
     (getItem_or_0 (ChatGPT.localStorage s') ≠ getItem_or_0 (ChatGPT.localStorage s) →
      getItem_or_0 (ChatGPT.localStorage s) < ChatGPT.score s ∧
      getItem_or_0 (ChatGPT.localStorage s') = ChatGPT.score s) ∧
     (ChatGPT.localStorage s' ≠ ChatGPT.localStorage s →
      (∃ r, e = ChatGPT.ETick r) ∧ ChatGPT.running s' = false)) ∧
  (∀ st,
     Agent.highScore (Agent.mount st) = getItem_or_0 st ∧
     stored (Agent.localStorage (Agent.mount st)) = Some (getItem_or_0 st)) ∧
  (∀ rx ry s s',
     Agent.reachable s →
     Agent.step (Agent.ERestartButton rx ry) s = Some s' →
     if Agent.score s >? Agent.highScore s
     then Agent.localStorage s'
          = setItem (Agent.score s) (setItem (Agent.score s) (Agent.localStorage s))
     else Agent.localStorage s' = Agent.localStorage s) ∧
  (∀ rx ry s s' h0 tl,
     Agent.reachable s →
     Agent.running s = true →
     Agent.loop_score s = Agent.score s →
     Agent.loop_highScore s = Agent.highScore s →
     Agent.snakeRef s = h0 :: tl →
     Agent.newHead h0 s ∈ Agent.snakeRef s →
     Agent.step (Agent.EFrame rx ry) s = Some s' →
     if Agent.score s >? Agent.highScore s
     then Agent.localStorage s'
          = setItem (Agent.score s) (setItem (Agent.score s) (Agent.localStorage s))
     else Agent.localStorage s' = Agent.localStorage s) ∧
  (∀ e s s',
     Agent.step e s = Some s' →
     Agent.localStorage s' ≠ Agent.localStorage s →
     (∃ rx ry, e = Agent.ERestartButton rx ry) ∨
     (∃ rx ry h0 tl, e = Agent.EFrame rx ry ∧ Agent.running s = true ∧
                     Agent.snakeRef s = h0 :: tl ∧
                     Agent.newHead h0 s ∈ Agent.snakeRef s)).
Proof.
  split; [done |]. split; [| split; [| split; [| split; [| split]]]].
  - intros r s h0 tl Hsnake Hin. eexists.
    split; [by eapply chatgpt_tick_game_over | done].
  - intros e s s' I%chatgpt_reachable_inv Hstep.
    pose proof (cinv_high s I) as Hhigh.
    destruct (chatgpt_step_store e s s' Hstep) as [-> | (r & -> & _ & Hoff & ->)].
    + by repeat split.
    + rewrite getItem_setItem, Hhigh.
      split; [lia |]. split; [lia |]. intros _. split; [by exists r | done].
  - intros st. simpl. split; [done |]. by destruct (getItem_or_0 st).
  - intros rx ry s s' I%agent_reachable_inv [= <-].
    rewrite agent_restart_store by done. by case_match.
  - intros rx ry s s' h0 tl I%agent_reachable_inv Hrun Hsc Hhs Hsnake Hin Hstep.
    simpl in Hstep. unfold Agent.frame in Hstep.
    rewrite Hrun, (agent_update_game_over rx ry s h0 tl Hsnake Hin) in Hstep.
    injection Hstep as <-. rewrite agent_gameOver_fresh by done.
    rewrite agent_restart_store by done. by case_match.
  - apply agent_step_store.
Qed.

(** C8 at sample inputs: a game over of snake-game-chatgpt at score 2 over a
    stored 1; a tick of a freshly mounted snake-game-chatgpt; the Restart
    button of snake-game-agent on a fresh page and at score 3 over a stored
    0; a game over of snake-game-agent at score 1 after a pause and resume. *)
Lemma C8_high_score_store_witness :
  (∃ s', ChatGPT.tick half chatgpt_curled = Some s' ∧
         ChatGPT.localStorage s' = {| stored := Some 2; setItem_calls := 1 |}) ∧
  (∃ s', ChatGPT.step (ChatGPT.ETick half) (ChatGPT.init half store_of_10) = Some s' ∧
         getItem_or_0 store_of_10 ≤ getItem_or_0 (ChatGPT.localStorage s')) ∧
  (∃ s', Agent.step (Agent.ERestartButton half half) (Agent.mount store_of_10) = Some s' ∧
         Agent.localStorage s' = {| stored := Some 10; setItem_calls := 2 |}) ∧
  (∃ s s', agent_run agent_paused_run (Agent.mount no_store) = Some s ∧
           Agent.step (Agent.EFrame half half) s = Some s' ∧
           Agent.localStorage s = {| stored := Some 0; setItem_calls := 1 |} ∧
           Agent.localStorage s' = {| stored := Some 1; setItem_calls := 3 |}) ∧
  (∃ s', Agent.step (Agent.ERestartButton half half) agent_square = Some s' ∧
         Agent.localStorage s' = {| stored := Some 3; setItem_calls := 3 |} ∧
         ((∃ rx ry, Agent.ERestartButton half half = Agent.ERestartButton rx ry) ∨
          (∃ rx ry h0 tl,
             Agent.ERestartButton half half = Agent.EFrame rx ry ∧
             Agent.running agent_square = true ∧
             Agent.snakeRef agent_square = h0 :: tl ∧
             Agent.newHead h0 agent_square ∈ Agent.snakeRef agent_square))).
Proof.
  destruct C8_high_score_store as (_ & Hover & Hmono & _ & Hrestart & Hfresh & Honly).
  split; [| split; [| split; [| split]]].
  - destruct (Hover half chatgpt_curled _ _ eq_refl) as (s' & Ht & Hst).
    { by apply hits_elem_of. }
    exists s'. by split.
  - assert (∃ s', ChatGPT.step (ChatGPT.ETick half)
                    (ChatGPT.init half store_of_10) = Some s') as [s' Hstep]
      by (eexists; vm_compute; reflexivity).
    exists s'. split; [done |].
    by destruct (Hmono _ _ _ (ChatGPT.reachable_init half store_of_10) Hstep)
      as (Hle & _).
  - eexists. split; [reflexivity |].
    exact (Hrestart half half (Agent.mount store_of_10) _
             (Agent.reachable_mount store_of_10) eq_refl).
  - destruct (agent_run agent_paused_run (Agent.mount no_store)) as [s |] eqn:Hrun;
      [| by vm_compute in Hrun].
    assert (Agent.reachable s) as Hs
      by (by eapply agent_run_reachable; [apply Agent.reachable_mount |]).
    vm_compute in Hrun. injection Hrun as <-.
    eexists. eexists. split; [reflexivity |]. split; [reflexivity |]. split; [done |].
    refine (Hfresh half half _ _ {| x := 5; y := 5 |} [ {| x := 6; y := 5 |} ]
              Hs eq_refl eq_refl eq_refl eq_refl _ eq_refl).
    by apply hits_elem_of.
  - eexists. split; [reflexivity |]. split; [done |].
    by apply (Honly (Agent.ERestartButton half half) agent_square _ eq_refl).
Defined.

(** Through the loop installed at mount the game-over block of
    snake-game-agent compares the score with the high score of the first
    render, 0: on a page that opens on a stored high score of 10, a game over
    at score 1 stores 1. *)
Lemma agent_stale_loop_lowers_high_score :
  ∃ s, agent_run agent_short_run (Agent.mount store_of_10) = Some s ∧
       Agent.reachable s ∧
       stored (Agent.localStorage (Agent.mount store_of_10)) = Some 10 ∧
       Agent.highScore (Agent.mount store_of_10) = 10 ∧
       Agent.highScore s = 1 ∧
       stored (Agent.localStorage s) = Some 1.
Proof.
  eexists. split; [vm_compute; reflexivity |]. split; [| done].
  apply (agent_run_reachable agent_short_run (Agent.mount store_of_10));
    [apply Agent.reachable_mount | vm_compute; reflexivity].
Qed.

(** ** Reset *)

(** C9.  [resetGame] of snake-game-chatgpt and [reset] of snake-game-agent
    return, whatever the prior state, the initial snake, direction and speed,
    score 0, [running] true and a freshly drawn food cell, and leave the high
    score and the store as they are; in a mounted snake-game-chatgpt the
    result is the state of a fresh mount on the current store.  Resetting
    twice is resetting once.  The Restart button of snake-game-agent, which
    saves the score before it resets, never lowers the high score or the
    stored value. *)
Theorem C9_reset_is_fresh :
  (∀ r s,
     ChatGPT.snake (ChatGPT.resetGame r s) = ChatGPT.INITIAL_SNAKE ∧
     ChatGPT.dir (ChatGPT.resetGame r s) = {| x := 1; y := 0 |} ∧
     ChatGPT.nextDir (ChatGPT.resetGame r s) = None ∧
     ChatGPT.speed (ChatGPT.resetGame r s) = ChatGPT.INITIAL_SPEED ∧
     ChatGPT.score (ChatGPT.resetGame r s) = 0 ∧
     ChatGPT.running (ChatGPT.resetGame r s) = true ∧
     ChatGPT.food (ChatGPT.resetGame r s)
     = ChatGPT.placeFood r ChatGPT.INITIAL_SNAKE ∧
     ChatGPT.food (ChatGPT.resetGame r s) ∈ ChatGPT.grid ∧
     (ChatGPT.food (ChatGPT.resetGame r s) ∉ ChatGPT.snake (ChatGPT.resetGame r s)) ∧
     ChatGPT.highScore (ChatGPT.resetGame r s) = ChatGPT.highScore s ∧
     ChatGPT.localStorage (ChatGPT.resetGame r s) = ChatGPT.localStorage s) ∧
  (∀ r s,
     ChatGPT.reachable s →
     ChatGPT.resetGame r s = ChatGPT.init r (ChatGPT.localStorage s)) ∧
  (∀ r r' s,
     ChatGPT.resetGame r (ChatGPT.resetGame r' s) = ChatGPT.resetGame r s) ∧
  (∀ rx ry s,
     Agent.snakeRef (Agent.reset rx ry s) = [ {| x := 10; y := 10 |} ] ∧
     Agent.velocityRef (Agent.reset rx ry s) = {| x := 1; y := 0 |} ∧
     Agent.speedRef (Agent.reset rx ry s) = 8 ∧
     Agent.score (Agent.reset rx ry s) = 0 ∧
     Agent.scoreRef (Agent.reset rx ry s) = 0 ∧
     Agent.running (Agent.reset rx ry s) = true ∧
     Agent.appleRef (Agent.reset rx ry s) = Agent.randomApple rx ry ∧
     on_board (Agent.appleRef (Agent.reset rx ry s)) ∧
     Agent.highScore (Agent.reset rx ry s) = Agent.highScore s ∧
     Agent.localStorage (Agent.reset rx ry s) = Agent.localStorage s) ∧
  (∀ rx ry rx' ry' s,
     Agent.reset rx ry (Agent.reset rx' ry' s) = Agent.reset rx ry s) ∧
  (∀ rx ry s s',
     Agent.reachable s →
     Agent.step (Agent.ERestartButton rx ry) s = Some s' →
     Agent.snakeRef s' = [ {| x := 10; y := 10 |} ] ∧
     Agent.velocityRef s' = {| x := 1; y := 0 |} ∧
     Agent.speedRef s' = 8 ∧
     Agent.score s' = 0 ∧
     Agent.running s' = true ∧
     Agent.appleRef s' = Agent.randomApple rx ry ∧
     Agent.highScore s' = Z.max (Agent.highScore s) (Agent.score s) ∧
     getItem_or_0 (Agent.localStorage s')
     = Z.max (getItem_or_0 (Agent.localStorage s)) (Agent.score s)).
Proof.
  split; [| split; [| split; [| split; [| split]]]].
  - intros r s. simpl.
    assert (ChatGPT.free ChatGPT.INITIAL_SNAKE ≠ []) as Hne by done.
    pose proof (placeFood_free r _ Hne) as [Hg Hf]%elem_of_free.
    by repeat split.
  - intros r s I%chatgpt_reachable_inv. unfold ChatGPT.resetGame, ChatGPT.init.
    by rewrite (cinv_high s I).
  - done.
  - intros rx ry s. simpl. repeat split. all: by apply random_below_range.
  - done.
  - intros rx ry s s' I%agent_reachable_inv [= <-].
    rewrite agent_restart_highScore, agent_restart_store by done.
    assert (getItem_or_0 (Agent.localStorage s) = Agent.highScore s) as ->
      by (unfold getItem_or_0; by rewrite (ainv_stored s I)).
    repeat split.
    destruct (Z.gtb_spec (Agent.score s) (Agent.highScore s)).
    + rewrite getItem_setItem. lia.
    + unfold getItem_or_0. rewrite (ainv_stored s I). simpl. lia.
Qed.

(** C9 at sample inputs: a reset of snake-game-chatgpt right after its mount,
    and the Restart button of snake-game-agent on a page that opened on a
    stored high score of 10. *)
Lemma C9_reset_is_fresh_witness :
  ChatGPT.resetGame quarter (ChatGPT.init half store_of_10)
  = ChatGPT.init quarter store_of_10 ∧
  (∃ s', Agent.step (Agent.ERestartButton half half) (Agent.mount store_of_10) = Some s' ∧
         Agent.snakeRef s' = [ {| x := 10; y := 10 |} ] ∧
         Agent.score s' = 0 ∧
         Agent.highScore s' = 10 ∧
         getItem_or_0 (Agent.localStorage s') = 10).
Proof.
  destruct C9_reset_is_fresh as (_ & Hfresh & _ & _ & _ & Hbutton). split.
  - exact (Hfresh quarter (ChatGPT.init half store_of_10)
             (ChatGPT.reachable_init half store_of_10)).
  - eexists. split; [reflexivity |].
    destruct (Hbutton half half (Agent.mount store_of_10) _
                (Agent.reachable_mount store_of_10) eq_refl)
      as (Hs & _ & _ & Hsc & _ & _ & Hh & Hst).
    by repeat split.
Defined.

(** ** Score and length *)

(** C10.  In every state of a mounted component the score is the length of
    the snake minus the length of the initial snake (3 cells in
    snake-game-chatgpt, 1 cell in snake-game-agent, where the mirror
    [scoreRef] also equals the score).  Every tick whose new head is not on
    the snake keeps the difference between length and score, from any state;
    a reset gives the initial length and score 0. *)
Theorem C10_score_is_growth :
  (∀ s, ChatGPT.reachable s →
        ChatGPT.score s
        = Z.of_nat (length (ChatGPT.snake s))
          - Z.of_nat (length ChatGPT.INITIAL_SNAKE)) ∧
  (∀ r s h0 tl,
     ChatGPT.snake s = h0 :: tl →
     ChatGPT.newHead h0 s ∉ ChatGPT.snake s →
     ∃ s', ChatGPT.tick r s = Some s' ∧
           Z.of_nat (length (ChatGPT.snake s')) - ChatGPT.score s'
           = Z.of_nat (length (ChatGPT.snake s)) - ChatGPT.score s) ∧
  (∀ r s,
     ChatGPT.score (ChatGPT.resetGame r s) = 0 ∧
     length (ChatGPT.snake (ChatGPT.resetGame r s))
     = length ChatGPT.INITIAL_SNAKE) ∧
  (∀ s, Agent.reachable s →
        Agent.score s = Z.of_nat (length (Agent.snakeRef s)) - 1 ∧
        Agent.scoreRef s = Agent.score s) ∧
  (∀ rx ry s h0 tl,
     Agent.snakeRef s = h0 :: tl →
     Agent.newHead h0 s ∉ Agent.snakeRef s →
     ∃ s', Agent.update rx ry s = Some s' ∧
           Z.of_nat (length (Agent.snakeRef s')) - Agent.score s'
           = Z.of_nat (length (Agent.snakeRef s)) - Agent.score s) ∧
  (∀ rx ry s,
     Agent.score (Agent.reset rx ry s) = 0 ∧
     length (Agent.snakeRef (Agent.reset rx ry s)) = 1%nat).
Proof.
  split; [| split; [| split; [| split; [| split]]]].
  - intros s I%chatgpt_reachable_inv. apply (cinv_score s I).
  - intros r s h0 tl Hsnake Hout.
    destruct (decide (ChatGPT.newHead h0 s = ChatGPT.food s)) as [Heat | Hmove].
    + eexists. split; [by eapply chatgpt_tick_eat |]. simpl length. simpl ChatGPT.score. lia.
    + eexists. split; [by eapply chatgpt_tick_move |]. simpl. by rewrite pop_length.
  - done.
  - intros s I%agent_reachable_inv. split; [apply (ainv_score s I) | apply (ainv_scoreRef s I)].
  - intros rx ry s h0 tl Hsnake Hout.
    destruct (decide (Agent.newHead h0 s = Agent.appleRef s)) as [Heat | Hmove].
    + eexists. split; [by eapply agent_update_eat |]. simpl length. simpl Agent.score. lia.
    + eexists. split; [by eapply agent_update_move |]. simpl. by rewrite pop_length.
  - done.
Qed.

(** C10 at sample inputs: two ticks after the mount of snake-game-chatgpt,
    snake-game-agent after its first apple, and one tick of either
    component. *)
Lemma C10_score_is_growth_witness :
  (∃ s, chatgpt_run [ChatGPT.ETick half; ChatGPT.ETick half]
                    (ChatGPT.init half no_store) = Some s ∧
        ChatGPT.score s = Z.of_nat (length (ChatGPT.snake s)) - 3) ∧
  (∃ s', ChatGPT.tick half chatgpt_fed = Some s' ∧
         Z.of_nat (length (ChatGPT.snake s')) - ChatGPT.score s' = 3) ∧
  (∃ s, agent_run (agent_to_first_apple ++ [Agent.EFrame half half])
                  (Agent.mount no_store) = Some s ∧
        Agent.score s = Z.of_nat (length (Agent.snakeRef s)) - 1) ∧
  (∃ s', Agent.update half half agent_at_first_apple = Some s' ∧
         Z.of_nat (length (Agent.snakeRef s')) - Agent.score s' = 1).
Proof.
  destruct C10_score_is_growth as (Hc & Hct & _ & Ha & Hat & _).
  split; [| split; [| split]].
  - destruct (chatgpt_run [ChatGPT.ETick half; ChatGPT.ETick half]
                (ChatGPT.init half no_store)) as [s |] eqn:Hrun;
      [| by vm_compute in Hrun].
    exists s. split; [done |]. apply Hc.
    by eapply chatgpt_run_reachable; [apply ChatGPT.reachable_init |].
  - destruct (Hct half chatgpt_fed _ _ eq_refl) as (s' & Ht & Hd).
    { apply hits_false. by vm_compute. }
    exists s'. by split.
  - destruct (agent_run (agent_to_first_apple ++ [Agent.EFrame half half])
                (Agent.mount no_store)) as [s |] eqn:Hrun;
      [| by vm_compute in Hrun].
    exists s. split; [done |]. apply Ha.
    by eapply agent_run_reachable; [apply Agent.reachable_mount |].
  - destruct (Hat half half agent_at_first_apple _ _ eq_refl) as (s' & Ht & Hd).
    { apply hits_false. by vm_compute. }
    exists s'. by split.
Defined.

(** ** Further properties of the mounted components *)

Lemma pop_NoDup (l : list Point) : NoDup l → NoDup (pop l).
Proof.
  unfold pop. rewrite removelast_firstn_len. intros Hnd.
  eapply sublist_NoDup; [exact Hnd | apply sublist_take].
Qed.

Lemma chatgpt_tick_NoDup (r : Random) (s s' : ChatGPT.State) :
  NoDup (ChatGPT.snake s) → ChatGPT.tick r s = Some s' → NoDup (ChatGPT.snake s').
Proof.
  intros Hnd Ht.
  destruct (ChatGPT.snake s) as [| h0 tl] eqn:Hsnake; [by unfold ChatGPT.tick in Ht; rewrite Hsnake in Ht |].
  rewrite <- Hsnake in Hnd.
  destruct (decide (ChatGPT.newHead h0 s ∈ ChatGPT.snake s)) as [Hin | Hout].
  - rewrite (chatgpt_tick_game_over r s h0 tl Hsnake Hin) in Ht. by injection Ht as <-.
  - assert (NoDup (ChatGPT.newHead h0 s :: ChatGPT.snake s)) as Hgrown
      by (by apply NoDup_cons).
    destruct (decide (ChatGPT.newHead h0 s = ChatGPT.food s)) as [Heat | Hmove].
    + rewrite (chatgpt_tick_eat r s h0 tl Hsnake Hout Heat) in Ht. by injection Ht as <-.
    + rewrite (chatgpt_tick_move r s h0 tl Hsnake Hout Hmove) in Ht.
      injection Ht as <-. by apply pop_NoDup.
Qed.

Lemma agent_update_NoDup (rx ry : Random) (s s' : Agent.State) :
  NoDup (Agent.snakeRef s) → Agent.update rx ry s = Some s' →
  NoDup (Agent.snakeRef s').
Proof.
  intros Hnd Hu.
  destruct (Agent.snakeRef s) as [| h0 tl] eqn:Hsnake; [by unfold Agent.update in Hu; rewrite Hsnake in Hu |].
  rewrite <- Hsnake in Hnd.
  destruct (decide (Agent.newHead h0 s ∈ Agent.snakeRef s)) as [Hin | Hout].
  - rewrite (agent_update_game_over rx ry s h0 tl Hsnake Hin) in Hu.
    injection Hu as <-. apply NoDup_singleton.
  - assert (NoDup (Agent.newHead h0 s :: Agent.snakeRef s)) as Hgrown
      by (by apply NoDup_cons).
    destruct (decide (Agent.newHead h0 s = Agent.appleRef s)) as [Heat | Hmove].
    + rewrite (agent_update_eat rx ry s h0 tl Hsnake Hout Heat) in Hu. by injection Hu as <-.
    + rewrite (agent_update_move rx ry s h0 tl Hsnake Hout Hmove) in Hu.
      injection Hu as <-. by apply pop_NoDup.
Qed.

(** In every state of a mounted component the snake has at least one cell,
    its cells are cells of the grid, and no cell occurs twice. *)
Theorem snake_well_formed :
  (∀ s, ChatGPT.reachable s →
        ChatGPT.snake s ≠ [] ∧ ChatGPT.snake s ⊆ ChatGPT.grid ∧
        NoDup (ChatGPT.snake s)) ∧
  (∀ s, Agent.reachable s →
        Agent.snakeRef s ≠ [] ∧ (∀ c, c ∈ Agent.snakeRef s → on_board c) ∧
        NoDup (Agent.snakeRef s)).
Proof.
  split.
  - intros s Hs. pose proof (chatgpt_reachable_inv s Hs) as I.
    split; [apply (cinv_snake s I) |]. split; [apply (cinv_grid s I) |].
    assert (NoDup ChatGPT.INITIAL_SNAKE) as Hinit.
    { by apply (bool_decide_unpack (NoDup ChatGPT.INITIAL_SNAKE)). }
    clear I. induction Hs as [r st | e s s' _ IH Hstep]; [done |].
    destruct e as [r | k r | w | | r]; simpl in Hstep.
    + destruct (ChatGPT.running s); [by eapply chatgpt_tick_NoDup | by injection Hstep as <-].
    + injection Hstep as <-. destruct k; simpl; try done;
        unfold ChatGPT.trySetDir; by case_match.
    + injection Hstep as <-. destruct w; simpl;
        unfold ChatGPT.trySetDir; by case_match.
    + by injection Hstep as <-.
    + by injection Hstep as <-.
  - intros s Hs. pose proof (agent_reachable_inv s Hs) as I.
    split; [apply (ainv_snake s I) |]. split; [apply (ainv_board s I) |].
    clear I. induction Hs as [st | e s s' _ IH Hstep]; [apply NoDup_singleton |].
    destruct e as [rx ry | k | | rx ry]; simpl in Hstep.
    + unfold Agent.frame in Hstep. destruct (Agent.running s); [| by injection Hstep as <-].
      destruct (Agent.update rx ry s) as [s1 |] eqn:Hu; [| done].
      injection Hstep as <-. simpl. by eapply agent_update_NoDup.
    + injection Hstep as <-. simpl. destruct k; simpl; try done; by case_match.
    + by injection Hstep as <-.
    + injection Hstep as <-. apply NoDup_singleton.
Qed.

(** The snake of snake-game-chatgpt at mount and of snake-game-agent at its
    first apple. *)
Lemma snake_well_formed_witness :
  NoDup (ChatGPT.snake (ChatGPT.init half no_store)) ∧
  NoDup (Agent.snakeRef agent_at_first_apple).
Proof.
  destruct snake_well_formed as [Hc Ha]. split.
  - by apply Hc, ChatGPT.reachable_init.
  - apply Ha.
    apply (agent_run_reachable agent_to_first_apple (Agent.mount no_store));
      [apply Agent.reachable_mount | by vm_compute].
Defined.

(** In a mounted component no tick throws: [tick] and [update] have a result
    in every reachable state. *)
Theorem ticks_have_results :
  (∀ r s, ChatGPT.reachable s → is_Some (ChatGPT.tick r s)) ∧
  (∀ rx ry s, Agent.reachable s → is_Some (Agent.update rx ry s)).
Proof.
  split.
  - intros r s Hs. by apply chatgpt_tick_total, chatgpt_reachable_inv.
  - intros rx ry s Hs. by apply agent_update_total, agent_reachable_inv.
Qed.

(** The first tick of either component. *)
Lemma ticks_have_results_witness :
  is_Some (ChatGPT.tick half (ChatGPT.init half no_store)) ∧
  is_Some (Agent.update half half (Agent.mount no_store)).
Proof.
  destruct ticks_have_results as [Hc Ha]. split.
  - apply Hc, ChatGPT.reachable_init.
  - apply Ha, Agent.reachable_mount.
Defined.

(** The first tick of snake-game-chatgpt with the food away from the snake,
    at (15,15): the snake moves one cell to the right and the score stays 0. *)
Example chatgpt_first_tick :
  ∃ s', ChatGPT.tick half chatgpt_away = Some s' ∧
        ChatGPT.snake s' = [ {| x := 10; y := 9 |}; {| x := 9; y := 9 |};
                             {| x := 8; y := 9 |} ] ∧
        ChatGPT.score s' = 0 ∧
        ChatGPT.food s' = {| x := 15; y := 15 |}.
Proof. eexists. split; [vm_compute; reflexivity |]. done. Qed.

(** ** Cell size and painting *)

Section chatgpt_paint.
Import ChatGPTUI.

Lemma pad_div (size : Z) : pad size = Z.max 1 (size * 8 / 100).
Proof. reflexivity. Qed.

Lemma pad_bounds (size : Z) : 3 ≤ size → 1 ≤ pad size ∧ pad size * 2 < size.
Proof.
  intros Hs. rewrite pad_div.
  pose proof (Z.div_le_upper_bound (size * 8) 100 size ltac:(lia) ltac:(lia)).
  pose proof (Z.div_pos (size * 8) 100 ltac:(lia) ltac:(lia)).
  assert (size * 8 / 100 * 100 ≤ size * 8)
    by (rewrite Z.mul_comm; apply Z.mul_div_le; lia).
  lia.
Qed.

(** For every cell size [updateCellSize] can give, the floor of the binary64
    product [size * 0.08] is the floor of the exact product. *)
Lemma pad_matches_binary64 (size : Z) :
  12 ≤ size ≤ 28 →
  product_floor_is size (Qfloor (inject_Z size * (8 # 100))) = true.
Proof.
  intros Hs.
  assert (size ∈ seqZ 12 17) as Hin by (apply elem_of_seqZ; lia).
  clear Hs. revert size Hin. apply Forall_forall.
  apply (bool_decide_unpack _). by vm_compute.
Qed.

Lemma updateCellSize_range (w : Z) : 12 ≤ updateCellSize w ≤ 28.
Proof. unfold updateCellSize. lia. Qed.

End chatgpt_paint.

(** The snake of a mounted component never repeats a cell. *)
Lemma chatgpt_reachable_NoDup (s : ChatGPT.State) :
  ChatGPT.reachable s → NoDup (ChatGPT.snake s).
Proof.
  induction 1 as [r st | e s s' _ IH Hstep].
  { by apply (bool_decide_unpack (NoDup ChatGPT.INITIAL_SNAKE)). }
  assert (NoDup ChatGPT.INITIAL_SNAKE) as Hinit
    by (by apply (bool_decide_unpack (NoDup ChatGPT.INITIAL_SNAKE))).
  destruct e as [r | k r | w | | r]; simpl in Hstep.
  - destruct (ChatGPT.running s); [by eapply chatgpt_tick_NoDup | by injection Hstep as <-].
  - injection Hstep as <-. destruct k; simpl; try done;
      unfold ChatGPT.trySetDir; by case_match.
  - injection Hstep as <-. destruct w; simpl;
      unfold ChatGPT.trySetDir; by case_match.
  - by injection Hstep as <-.
  - by injection Hstep as <-.
Qed.

Lemma agent_reachable_NoDup (s : Agent.State) :
  Agent.reachable s → NoDup (Agent.snakeRef s).
Proof.
  induction 1 as [st | e s s' _ IH Hstep]; [apply NoDup_singleton |].
  destruct e as [rx ry | k | | rx ry]; simpl in Hstep.
  - unfold Agent.frame in Hstep. destruct (Agent.running s); [| by injection Hstep as <-].
    destruct (Agent.update rx ry s) as [s1 |] eqn:Hu; [| done].
    injection Hstep as <-. simpl. by eapply agent_update_NoDup.
  - injection Hstep as <-. simpl. destruct k; simpl; try done; by case_match.
  - by injection Hstep as <-.
  - injection Hstep as <-. apply NoDup_singleton.
Qed.

Section chatgpt_draw.
Import ChatGPTUI.

Lemma drawCell_within (c : Point) (size : Z) (fill : string) :
  3 ≤ size → c ∈ ChatGPT.grid →
  within (drawCell (x c) (y c) size fill)
         (ChatGPT.GRID_COLS * size) (ChatGPT.GRID_ROWS * size).
Proof.
  intros Hs [Hx Hy]%elem_of_grid. destruct (pad_bounds size Hs) as [Hp1 Hp2].
  unfold within, drawCell. simpl. unfold ChatGPT.GRID_COLS, ChatGPT.GRID_ROWS in *.
  repeat split; nia.
Qed.

Lemma drawCell_apart (c c' : Point) (size : Z) (fill fill' : string) :
  3 ≤ size → c ≠ c' →
  apart (drawCell (x c) (y c) size fill) (drawCell (x c') (y c') size fill').
Proof.
  intros Hs Hne. destruct (pad_bounds size Hs) as [Hp1 Hp2].
  unfold apart, drawCell. simpl.
  assert (x c < x c' ∨ x c' < x c ∨ y c < y c' ∨ y c' < y c) as Hcase.
  { destruct c as [a b], c' as [a' b']. simpl.
    destruct (decide (a = a')) as [-> |]; [| lia].
    destruct (decide (b = b')) as [-> |]; [done | lia]. }
  destruct Hcase as [H | [H | [H | H]]];
    [left | right; left | right; right; left | right; right; right]; nia.
Qed.

(** What the draw effect of snake-game-chatgpt paints, for a mounted
    component and every cell size the [cellSize] hook takes (20 at first,
    then a value of [updateCellSize]): one fill for the background, one for
    the food and one per segment; every fill lies on the canvas; the fills of
    two segments never overlap; unless the snake covers the grid, no segment
    is painted over the food; the head, and only the head, has the lighter
    shade. *)
Theorem chatgpt_draw_on_canvas (s : ChatGPT.State) (size : Z) :
  ChatGPT.reachable s → 12 ≤ size ≤ 28 →
  length (draw s size) = (2 + length (ChatGPT.snake s))%nat ∧
  (∀ f, f ∈ draw s size →
        within f (ChatGPT.GRID_COLS * size) (ChatGPT.GRID_ROWS * size)) ∧
  (∀ i j f g,
     draw s size !! (2 + i)%nat = Some f → draw s size !! (2 + j)%nat = Some g →
     i ≠ j → apart f g) ∧
  (¬ ChatGPT.grid ⊆ ChatGPT.snake s →
   ∀ j f g,
     draw s size !! 1%nat = Some f → draw s size !! (2 + j)%nat = Some g →
     apart f g) ∧
  (∀ i f, draw s size !! (2 + i)%nat = Some f →
          fill_style f = "#84cc16" ↔ i = 0%nat).
Proof.
  intros Hs Hsize. pose proof (chatgpt_reachable_inv s Hs) as I.
  pose proof (chatgpt_reachable_NoDup s Hs) as Hnd.
  assert (3 ≤ size) as H3 by lia.
  assert (∀ i f, draw s size !! (2 + i)%nat = Some f →
            ∃ c, ChatGPT.snake s !! i = Some c ∧
                 f = drawCell (x c) (y c) size
                       (if (i =? 0)%nat then "#84cc16" else "#16a34a")) as Hseg.
  { intros i f Hf. unfold draw in Hf. simpl in Hf.
    rewrite list_lookup_imap in Hf.
    destruct (ChatGPT.snake s !! i) as [c |] eqn:E; [| done].
    exists c. split; [done |]. by injection Hf as <-. }
  split; [| split; [| split; [| split]]].
  - unfold draw. simpl. by rewrite length_imap.
  - intros f [i Hf]%list_elem_of_lookup. destruct i as [| [| i]].
    + injection Hf as <-. unfold within. simpl.
      unfold ChatGPT.GRID_COLS, ChatGPT.GRID_ROWS. lia.
    + injection Hf as <-. apply drawCell_within; [done |].
      apply (cinv_food s I).
    + destruct (Hseg i f Hf) as (c & Hc & ->).
      apply drawCell_within; [done |].
      by eapply (cinv_grid s I), list_elem_of_lookup_2.
  - intros i j f g Hf Hg Hij.
    destruct (Hseg i f Hf) as (c & Hc & ->).
    destruct (Hseg j g Hg) as (c' & Hc' & ->).
    apply drawCell_apart; [done |]. intros <-.
    by apply Hij, (NoDup_lookup (ChatGPT.snake s) i j c).
  - intros Hfree j f g Hf Hg. injection Hf as <-.
    destruct (Hseg j g Hg) as (c' & Hc' & ->).
    apply drawCell_apart; [done |]. intros E.
    destruct (cinv_food s I) as [_ [Hoff | Hfull]]; [| done].
    apply Hoff. rewrite E. by eapply list_elem_of_lookup_2.
  - intros i f Hf. destruct (Hseg i f Hf) as (c & Hc & ->). simpl.
    destruct i; simpl; split; intros; done.
Qed.

End chatgpt_draw.

(** The draw effect right after the mount, in a window 400 pixels wide:
    cells of 17 pixels on a canvas of 340 by 340. *)
Lemma chatgpt_draw_on_canvas_witness :
  ChatGPTUI.updateCellSize 400 = 17 ∧
  length (ChatGPTUI.draw (ChatGPT.init half no_store) 17) = 5%nat ∧
  Forall (λ f, within f 340 340) (ChatGPTUI.draw (ChatGPT.init half no_store) 17).
Proof.
  split; [done |].
  destruct (chatgpt_draw_on_canvas (ChatGPT.init half no_store) 17
              (ChatGPT.reachable_init half no_store) ltac:(lia))
    as (Hlen & Hin & _).
  split; [exact Hlen |]. apply Forall_forall. exact Hin.
Defined.

(** The cell size [updateCellSize] chooses is between 12 and 28 pixels and
    grows with the window.  From 288 pixels of inner width on, the canvas of
    [GRID_COLS] cells fits into the window less its 48 pixels of margin; in a
    narrower window the cells stay at 12 pixels and the canvas is wider than
    that room; from 608 pixels on the cells have their full 28 pixels. *)
Theorem cell_size_fits_window :
  (∀ w, 12 ≤ ChatGPTUI.updateCellSize w ≤ 28) ∧
  (∀ w w', w ≤ w' → ChatGPTUI.updateCellSize w ≤ ChatGPTUI.updateCellSize w') ∧
  (∀ w, 288 ≤ w →
        ChatGPT.GRID_COLS * ChatGPTUI.updateCellSize w ≤ w - 48) ∧
  (∀ w, w < 288 →
        ChatGPTUI.updateCellSize w = 12 ∧
        w - 48 < ChatGPT.GRID_COLS * ChatGPTUI.updateCellSize w) ∧
  (∀ w, 608 ≤ w → ChatGPTUI.updateCellSize w = 28).
Proof.
  unfold ChatGPTUI.updateCellSize, ChatGPT.GRID_COLS.
  split; [intros w; lia |]. split; [| split; [| split]].
  - intros w w' Hw.
    assert (Z.min (w - 48) 640 / 20 ≤ Z.min (w' - 48) 640 / 20)
      by (apply Z.div_le_mono; lia).
    lia.
  - intros w Hw.
    pose proof (Z.mul_div_le (Z.min (w - 48) 640) 20 ltac:(lia)).
    assert (12 ≤ Z.min (w - 48) 640 / 20) by (apply Z.div_le_lower_bound; lia).
    lia.
  - intros w Hw.
    assert (Z.min (w - 48) 640 / 20 < 12) by (apply Z.div_lt_upper_bound; lia).
    lia.
  - intros w Hw.
    assert (28 ≤ Z.min (w - 48) 640 / 20) by (apply Z.div_le_lower_bound; lia).
    lia.
Qed.

(** Windows of 200, 400 and 1920 pixels. *)
Lemma cell_size_fits_window_witness :
  ChatGPTUI.updateCellSize 200 ≤ ChatGPTUI.updateCellSize 400 ∧
  ChatGPT.GRID_COLS * ChatGPTUI.updateCellSize 400 ≤ 400 - 48 ∧
  (ChatGPTUI.updateCellSize 200 = 12 ∧
   200 - 48 < ChatGPT.GRID_COLS * ChatGPTUI.updateCellSize 200) ∧
  ChatGPTUI.updateCellSize 1920 = 28.
Proof.
  destruct cell_size_fits_window as (_ & Hmono & Hfit & Hnarrow & Hwide).
  split; [apply Hmono; lia |]. split; [apply Hfit; lia |].
  split; [apply Hnarrow; lia | apply Hwide; lia].
Defined.

(** What [draw()] of snake-game-agent paints for a mounted component: one
    fill for the background, one for the apple and one per part of the snake;
    every fill lies on the canvas of [CANVAS_SIZE] pixels; the fills of two
    parts never overlap. *)
Theorem agent_draw_on_canvas (s : Agent.State) :
  Agent.reachable s →
  length (AgentUI.draw s) = (2 + length (Agent.snakeRef s))%nat ∧
  (∀ f, f ∈ AgentUI.draw s → within f Agent.CANVAS_SIZE Agent.CANVAS_SIZE) ∧
  (∀ i j f g,
     AgentUI.draw s !! (2 + i)%nat = Some f →
     AgentUI.draw s !! (2 + j)%nat = Some g →
     i ≠ j → apart f g).
Proof.
  intros Hs. pose proof (agent_reachable_inv s Hs) as I.
  pose proof (agent_reachable_NoDup s Hs) as Hnd.
  assert (∀ i f, AgentUI.draw s !! (2 + i)%nat = Some f →
            ∃ c, Agent.snakeRef s !! i = Some c ∧
                 rect_x f = x c * 20 + 1 ∧ rect_y f = y c * 20 + 1 ∧
                 rect_w f = 18 ∧ rect_h f = 18) as Hseg.
  { intros i f Hf. unfold AgentUI.draw in Hf. simpl in Hf.
    rewrite list_lookup_fmap in Hf.
    destruct (Agent.snakeRef s !! i) as [c |] eqn:E; [| done].
    exists c. split; [done |]. by injection Hf as <-. }
  split; [| split].
  - unfold AgentUI.draw. simpl. by rewrite length_fmap.
  - intros f [i Hf]%list_elem_of_lookup. unfold within.
    change Agent.CANVAS_SIZE with 400. destruct i as [| [| i]].
    + injection Hf as <-. simpl. change Agent.CANVAS_SIZE with 400. lia.
    + injection Hf as <-. simpl. destruct (ainv_apple s I) as [Hx Hy].
      change Agent.ROWS with 20 in *. change Agent.SCALE with 20. lia.
    + destruct (Hseg i f Hf) as (c & Hc & -> & -> & -> & ->).
      destruct (ainv_board s I c) as [Hx Hy]; [by eapply list_elem_of_lookup_2 |].
      change Agent.ROWS with 20 in *. lia.
  - intros i j f g Hf Hg Hij.
    destruct (Hseg i f Hf) as (c & Hc & Hfx & Hfy & Hfw & Hfh).
    destruct (Hseg j g Hg) as (c' & Hc' & Hgx & Hgy & Hgw & Hgh).
    assert (c ≠ c') as Hne
      by (intros <-; by apply Hij, (NoDup_lookup (Agent.snakeRef s) i j c)).
    unfold apart. rewrite Hfx, Hfy, Hfw, Hfh, Hgx, Hgy, Hgw, Hgh.
    destruct c as [a b], c' as [a' b']. simpl.
    destruct (decide (a = a')) as [-> |]; [| lia].
    destruct (decide (b = b')) as [-> |]; [done | lia].
Qed.

(** [draw()] after the first apple of a fresh page. *)
Lemma agent_draw_on_canvas_witness :
  length (AgentUI.draw agent_at_first_apple) = 3%nat ∧
  Forall (λ f, within f 400 400) (AgentUI.draw agent_at_first_apple).
Proof.
  destruct (agent_draw_on_canvas agent_at_first_apple) as (Hlen & Hin & _).
  { apply (agent_run_reachable agent_to_first_apple (Agent.mount no_store));
      [apply Agent.reachable_mount | by vm_compute]. }
  split; [exact Hlen |]. apply Forall_forall. exact Hin.
Defined.

(** ** Keys and swipes *)

(** Case analysis on whether a key string is a given literal: in the first
    case the tests on it compute. *)
Ltac key_is key k :=
  destruct (String.eqb_spec key k) as [-> | ?];
  [first [reflexivity | by vm_compute] |].

(** The order in which the literals of the handlers are tried. *)
Ltac key_cases key :=
  key_is key "ArrowUp"; key_is key "w"; key_is key "W";
  key_is key "ArrowDown"; key_is key "s"; key_is key "S";
  key_is key "ArrowLeft"; key_is key "a"; key_is key "A";
  key_is key "ArrowRight"; key_is key "d"; key_is key "D";
  key_is key " "; key_is key "Spacebar";
  key_is key "r"; key_is key "R".

Lemma chatgpt_onKey_decoded (key : string) (r : Random) (s : ChatGPT.State) :
  ChatGPTUI.onKey key r s = ChatGPT.onKey (ChatGPTUI.keyOf key) r s.
Proof.
  unfold ChatGPTUI.onKey, ChatGPTUI.keyOf. key_cases key. reflexivity.
Qed.

Lemma agent_handleKey_decoded (key : string) (s : Agent.State) :
  AgentUI.handleKey key s = Agent.handleKey (AgentUI.keyOf key) s.
Proof.
  unfold AgentUI.handleKey, AgentUI.keyOf, Agent.handleKey.
  key_is key "ArrowUp". key_is key "ArrowDown". key_is key "ArrowLeft".
  key_is key "ArrowRight". key_is key " ". key_is key "Spacebar".
  reflexivity.
Qed.

(** What a key press does, in both components.  Of the tests a handler makes
    one after the other at most one fires, so the handler acts as on the one
    key the string stands for (in snake-game-chatgpt the letters w, a, s, d
    of either case count as arrows; snake-game-agent ignores them).  No key
    moves the snake or changes the food, score, speed, high score or store,
    except r or R in snake-game-chatgpt, which resets the game; a key of
    snake-game-chatgpt never changes [dir] itself, only the queue. *)
Theorem keys_only_steer :
  (∀ key r s,
     ChatGPTUI.onKey key r s = ChatGPT.onKey (ChatGPTUI.keyOf key) r s) ∧
  (∀ key r s,
     key ≠ "r" → key ≠ "R" →
     ChatGPT.snake (ChatGPTUI.onKey key r s) = ChatGPT.snake s ∧
     ChatGPT.dir (ChatGPTUI.onKey key r s) = ChatGPT.dir s ∧
     ChatGPT.food (ChatGPTUI.onKey key r s) = ChatGPT.food s ∧
     ChatGPT.speed (ChatGPTUI.onKey key r s) = ChatGPT.speed s ∧
     ChatGPT.score (ChatGPTUI.onKey key r s) = ChatGPT.score s ∧
     ChatGPT.highScore (ChatGPTUI.onKey key r s) = ChatGPT.highScore s ∧
     ChatGPT.localStorage (ChatGPTUI.onKey key r s) = ChatGPT.localStorage s) ∧
  (∀ key s,
     AgentUI.handleKey key s = Agent.handleKey (AgentUI.keyOf key) s) ∧
  (∀ key s,
     Agent.snakeRef (AgentUI.handleKey key s) = Agent.snakeRef s ∧
     Agent.appleRef (AgentUI.handleKey key s) = Agent.appleRef s ∧
     Agent.speedRef (AgentUI.handleKey key s) = Agent.speedRef s ∧
     Agent.score (AgentUI.handleKey key s) = Agent.score s ∧
     Agent.scoreRef (AgentUI.handleKey key s) = Agent.scoreRef s ∧
     Agent.highScore (AgentUI.handleKey key s) = Agent.highScore s ∧
     Agent.localStorage (AgentUI.handleKey key s) = Agent.localStorage s) ∧
  (∀ key s,
     key ∈ ["w"; "a"; "s"; "d"; "W"; "A"; "S"; "D"; "r"; "R"] →
     AgentUI.handleKey key s = s).
Proof.
  split; [apply chatgpt_onKey_decoded |]. split; [| split; [apply agent_handleKey_decoded |]; split].
  - intros key r s Hr HR. rewrite chatgpt_onKey_decoded.
    assert (ChatGPTUI.keyOf key ≠ ChatGPT.KeyR) as Hk.
    { unfold ChatGPTUI.keyOf. key_cases key. done. }
    destruct (ChatGPTUI.keyOf key); simpl; try done;
      unfold ChatGPT.trySetDir; by case_match.
  - intros key s. rewrite agent_handleKey_decoded.
    destruct (AgentUI.keyOf key); simpl; try done; by case_match.
  - intros key s Hkey. rewrite agent_handleKey_decoded.
    repeat (apply elem_of_cons in Hkey as [-> | Hkey]; [done |]).
    by apply elem_of_nil in Hkey.
Qed.

(** The key d in snake-game-chatgpt, where it queues a turn to the right of
    a snake moving up, and in snake-game-agent, where it does nothing. *)
Lemma keys_only_steer_witness :
  (ChatGPT.snake (ChatGPTUI.onKey "d" half chatgpt_curled)
   = ChatGPT.snake chatgpt_curled ∧
   ChatGPT.nextDir (ChatGPTUI.onKey "d" half chatgpt_curled)
   = Some {| x := 1; y := 0 |}) ∧
  AgentUI.handleKey "d" agent_square = agent_square.
Proof.
  destruct keys_only_steer as (_ & Hframe & _ & _ & Hletters). split.
  - split; [| done].
    by destruct (Hframe "d" half chatgpt_curled) as (Hs & _).
  - apply Hletters. rewrite !elem_of_cons. tauto.
Defined.


(** What a swipe does in snake-game-chatgpt.  A touch that ends before a
    start was recorded, or less than 20 pixels from the start on both axes,
    changes nothing.  Every other touch is a direction request
    [trySetDir d]: [d] is a unit step along the axis of the larger
    displacement (the vertical one when the two are equal) and points the way
    the finger went, and the request is one of the four swipes of the state
    machine. *)
Theorem swipe_follows_finger (x0 y0 tx ty : Z) (s : ChatGPT.State) :
  let dx := tx - x0 in
  let dy := ty - y0 in
  ChatGPTUI.touchEnd None tx ty s = s ∧
  (Z.abs dx < 20 → Z.abs dy < 20 →
   ChatGPTUI.touchEnd (Some (x0, y0)) tx ty s = s) ∧
  (20 ≤ Z.abs dx ∨ 20 ≤ Z.abs dy →
   ∃ d w,
     ChatGPTUI.touchEnd (Some (x0, y0)) tx ty s = ChatGPT.trySetDir d s ∧
     ChatGPT.trySetDir d s = ChatGPT.touchEnd w s ∧
     unit_dir d ∧
     x d * dx + y d * dy = Z.max (Z.abs dx) (Z.abs dy) ∧
     (Z.abs dx ≤ Z.abs dy → x d = 0) ∧
     (Z.abs dy < Z.abs dx → y d = 0)).
Proof.
  intros dx dy. split; [done |]. unfold ChatGPTUI.touchEnd. fold dx dy. split.
  - intros Hx Hy.
    destruct (Z.ltb_spec (Z.max (Z.abs dx) (Z.abs dy)) 20); [done | lia].
  - intros Hfar.
    destruct (Z.ltb_spec (Z.max (Z.abs dx) (Z.abs dy)) 20); [lia |].
    destruct (Z.gtb_spec (Z.abs dx) (Z.abs dy)).
    + destruct (Z.gtb_spec dx 0).
      * exists {| x := 1; y := 0 |}, ChatGPT.SwipeRight.
        repeat split; auto with snake; simpl; lia.
      * exists {| x := -1; y := 0 |}, ChatGPT.SwipeLeft.
        repeat split; auto with snake; simpl; lia.
    + destruct (Z.gtb_spec dy 0).
      * exists {| x := 0; y := 1 |}, ChatGPT.SwipeDown.
        repeat split; auto with snake; simpl; lia.
      * exists {| x := 0; y := -1 |}, ChatGPT.SwipeUp.
        repeat split; auto with snake; simpl; lia.
Qed.

(** A swipe of 30 pixels to the left and 25 up, on a snake that moves up: a
    turn to the left is queued. *)
Lemma swipe_follows_finger_witness :
  ChatGPT.nextDir (ChatGPTUI.touchEnd (Some (200, 300)) 170 275 chatgpt_curled)
  = Some {| x := -1; y := 0 |}.
Proof.
  destruct (swipe_follows_finger 200 300 170 275 chatgpt_curled)
    as (_ & _ & Hfar).
  destruct Hfar as (d & w & -> & _ & Hd & Hdot & _ & Hy); [simpl; lia |].
  simpl in Hdot, Hy. destruct d as [dx dy]. simpl in *.
  rewrite Hy in Hdot by lia.
  assert (dx = -1) as -> by lia. by rewrite Hy by lia.
Defined.


(** ** The size of the snake *)

(** A list of distinct grid cells has at most as many cells as the grid. *)
Lemma cells_length (l : list Point) :
  NoDup l → l ⊆ ChatGPT.grid → (length l ≤ 400)%nat.
Proof.
  intros Hnd Hsub. rewrite <- grid_length.
  by apply submseteq_length, NoDup_submseteq.
Qed.

Lemma chatgpt_step_length (e : ChatGPT.Event) (s s' : ChatGPT.State) :
  (3 ≤ length (ChatGPT.snake s))%nat → ChatGPT.step e s = Some s' →
  (3 ≤ length (ChatGPT.snake s'))%nat.
Proof.
  intros Hlen Hstep. destruct e as [r | k r | w | | r]; simpl in Hstep.
  - destruct (ChatGPT.running s); [| by injection Hstep as <-].
    unfold ChatGPT.tick in Hstep.
    destruct (ChatGPT.snake s) as [| head tl] eqn:Hsnake; [done |].
    repeat case_match; injection Hstep as <-; simpl; rewrite ?Hsnake; try done.
    + simpl in *. lia.
    + by rewrite pop_length.
  - injection Hstep as <-.
    destruct k; simpl; try done; unfold ChatGPT.trySetDir; by case_match.
  - injection Hstep as <-.
    destruct w; simpl; unfold ChatGPT.trySetDir; by case_match.
  - by injection Hstep as <-.
  - by injection Hstep as <-.
Qed.

Lemma chatgpt_reachable_length (s : ChatGPT.State) :
  ChatGPT.reachable s → (3 ≤ length (ChatGPT.snake s) ≤ 400)%nat.
Proof.
  intros Hs. split.
  - induction Hs as [r st | e s s' _ IH Hstep]; [done |].
    by eapply chatgpt_step_length.
  - apply cells_length; [by apply chatgpt_reachable_NoDup |].
    apply (cinv_grid s (chatgpt_reachable_inv s Hs)).
Qed.

Lemma agent_reachable_length (s : Agent.State) :
  Agent.reachable s → (1 ≤ length (Agent.snakeRef s) ≤ 400)%nat.
Proof.
  intros Hs. pose proof (agent_reachable_inv s Hs) as I. split.
  - pose proof (ainv_snake s I). destruct (Agent.snakeRef s); [done | simpl; lia].
  - apply cells_length; [by apply agent_reachable_NoDup |].
    intros c Hc. by apply on_board_grid, (ainv_board s I).
Qed.

(** ** Speed *)

Section chatgpt_speed.
Import ChatGPT.

Lemma chatgpt_step_speed (e : Event) (s s' : State) :
  (speed s == 6 + inject_Z (score s) * (1 # 2))%Q →
  step e s = Some s' →
  (speed s' == 6 + inject_Z (score s') * (1 # 2))%Q.
Proof.
  intros Hlaw Hstep. destruct e as [r | k r | w | | r]; simpl in Hstep.
  - destruct (running s); [| by injection Hstep as <-].
    unfold tick in Hstep. destruct (snake s) as [| head tl]; [done |].
    repeat case_match; injection Hstep as <-; simpl; try done.
    rewrite Hlaw, inject_Z_plus. unfold SPEED_INCREASE. ring.
  - injection Hstep as <-.
    destruct k; simpl; try done; unfold trySetDir; by case_match.
  - injection Hstep as <-.
    destruct w; simpl; unfold trySetDir; by case_match.
  - by injection Hstep as <-.
  - by injection Hstep as <-.
Qed.

Lemma chatgpt_reachable_speed (s : State) :
  reachable s → (speed s == 6 + inject_Z (score s) * (1 # 2))%Q.
Proof.
  induction 1 as [r st | e s s' _ IH Hstep]; [done |].
  by eapply chatgpt_step_speed.
Qed.

End chatgpt_speed.

Section agent_speed.
Import Agent.

Lemma agent_step_speed (e : Event) (s s' : State) :
  speedRef s = 8 + score s / 5 →
  step e s = Some s' →
  speedRef s' = 8 + score s' / 5.
Proof.
  intros Hlaw Hstep. destruct e as [rx ry | k | | rx ry]; simpl in Hstep.
  - unfold frame in Hstep. destruct (running s); [| by injection Hstep as <-].
    unfold update in Hstep. destruct (snakeRef s) as [| h0 tl]; [done |].
    simpl in Hstep. repeat case_match; injection Hstep as <-; by simpl.
  - injection Hstep as <-. destruct k; simpl; try done; by case_match.
  - by injection Hstep as <-.
  - by injection Hstep as <-.
Qed.

Lemma agent_reachable_speed (s : State) :
  reachable s → speedRef s = 8 + score s / 5.
Proof.
  induction 1 as [st | e s s' _ IH Hstep]; [done |].
  by eapply agent_step_speed.
Qed.

End agent_speed.

(** The speed is a function of the score in every state of a mounted
    component.  In snake-game-chatgpt the speed is 6 plus half the score, so
    the delay [1000 / speed] of the tick interval divides by a number
    between 6 and 204.5.  In snake-game-agent [speedRef] is 8 plus a fifth of
    the score, rounded down, a number between 8 and 87 by which
    [1000 / speedRef.current] divides. *)
Theorem speed_follows_score :
  (∀ s, ChatGPT.reachable s →
        (ChatGPT.speed s == 6 + inject_Z (ChatGPT.score s) * (1 # 2))%Q ∧
        (6 <= ChatGPT.speed s)%Q ∧ (ChatGPT.speed s <= 409 # 2)%Q) ∧
  (∀ s, Agent.reachable s →
        Agent.speedRef s = 8 + Agent.score s / 5 ∧
        8 ≤ Agent.speedRef s ≤ 87).
Proof.
  split.
  - intros s Hs. pose proof (chatgpt_reachable_speed s Hs) as Hlaw.
    pose proof (chatgpt_reachable_length s Hs) as Hlen.
    pose proof (cinv_score s (chatgpt_reachable_inv s Hs)) as Hscore.
    simpl in Hscore. split; [done |]. rewrite Hlaw.
    assert (0 ≤ ChatGPT.score s ≤ 397) as [Hlo Hhi] by lia.
    unfold Qle, Qplus, Qmult. simpl. lia.
  - intros s Hs. pose proof (agent_reachable_speed s Hs) as Hlaw.
    pose proof (agent_reachable_length s Hs) as Hlen.
    pose proof (ainv_score s (agent_reachable_inv s Hs)) as Hscore.
    split; [done |]. rewrite Hlaw.
    assert (0 ≤ Agent.score s ≤ 399) as [Hlo Hhi] by lia.
    pose proof (Z.div_pos (Agent.score s) 5 Hlo ltac:(lia)).
    pose proof (Z.div_lt_upper_bound (Agent.score s) 5 80 ltac:(lia) ltac:(lia)).
    lia.
Qed.

(** The speeds after the first meal of either component: 6.5 at score 1 in
    snake-game-chatgpt, still 8 at score 1 in snake-game-agent. *)
Lemma speed_follows_score_witness :
  (∃ s, chatgpt_run [ChatGPT.ETick half] (ChatGPT.init draw_in_front no_store) = Some s ∧
        ChatGPT.score s = 1 ∧ (ChatGPT.speed s == 13 # 2)%Q) ∧
  (∃ s, agent_run (agent_to_first_apple ++ [Agent.EFrame half half])
                  (Agent.mount no_store) = Some s ∧
        Agent.score s = 1 ∧ Agent.speedRef s = 8).
Proof.
  destruct speed_follows_score as [Hc Ha]. split.
  - destruct (chatgpt_run [ChatGPT.ETick half] (ChatGPT.init draw_in_front no_store))
      as [s |] eqn:Hrun; [| by vm_compute in Hrun].
    assert (ChatGPT.reachable s) as Hs
      by (by eapply chatgpt_run_reachable; [apply ChatGPT.reachable_init |]).
    destruct (Hc s Hs) as (Hlaw & _). vm_compute in Hrun. injection Hrun as <-.
    eexists. split; [reflexivity |]. split; [done |]. by rewrite Hlaw.
  - destruct (agent_run (agent_to_first_apple ++ [Agent.EFrame half half])
                (Agent.mount no_store)) as [s |] eqn:Hrun; [| by vm_compute in Hrun].
    assert (Agent.reachable s) as Hs
      by (by eapply agent_run_reachable; [apply Agent.reachable_mount |]).
    destruct (Ha s Hs) as (Hlaw & _). vm_compute in Hrun. injection Hrun as <-.
    eexists. split; [reflexivity |]. split; [done |]. by rewrite Hlaw.
Defined.


(** ** The capacity of the board *)

(** The cells [placeFood] finds free are the grid cells off the snake: as
    many as the grid has cells beyond those of the snake. *)
Lemma free_length (l : list Point) :
  NoDup l → l ⊆ ChatGPT.grid →
  (length (ChatGPT.free l) + length l = 400)%nat.
Proof.
  intros Hnd Hsub. unfold ChatGPT.free.
  pose proof (Permutation_length
                (filter_app_complement (λ c, ChatGPT.key c ∉ ChatGPT.occupied l)
                                       ChatGPT.grid)) as Hp.
  rewrite length_app, grid_length in Hp. rewrite <- Hp. f_equal.
  symmetry. apply Permutation_length, NoDup_Permutation.
  - apply NoDup_filter, NoDup_grid.
  - done.
  - intros c. rewrite list_elem_of_filter, key_occupied. split.
    + intros [Hc _]. by apply dec_stable.
    + intros Hc. split; [by intros Hn | by apply Hsub].
Qed.

(** Distinct cells that fill the grid's length cover the grid. *)
Lemma full_length_covers (l : list Point) :
  NoDup l → l ⊆ ChatGPT.grid → length l = 400%nat → ChatGPT.grid ⊆ l.
Proof.
  intros Hnd Hsub Hlen c Hc.
  assert (l ≡ₚ ChatGPT.grid) as Hp.
  { apply submseteq_length_Permutation; [by apply NoDup_submseteq |].
    rewrite grid_length. lia. }
  by rewrite Hp.
Qed.

(** The snake never outgrows the board.  In every state of a mounted
    component the snake has at most 400 cells (and at least the cells of the
    initial snake), so the score is at most 397 in snake-game-chatgpt and at
    most 399 in snake-game-agent; in snake-game-chatgpt the array [free] of
    [placeFood] on the snake has 397 cells less the score, and is empty (the
    fallback to (0,0)) at score 397 only. *)
Theorem snake_fits_board :
  (∀ s, ChatGPT.reachable s →
        (3 ≤ length (ChatGPT.snake s) ≤ 400)%nat ∧
        0 ≤ ChatGPT.score s ≤ 397 ∧
        Z.of_nat (length (ChatGPT.free (ChatGPT.snake s))) = 397 - ChatGPT.score s ∧
        (ChatGPT.free (ChatGPT.snake s) = [] ↔ ChatGPT.score s = 397)) ∧
  (∀ s, Agent.reachable s →
        (1 ≤ length (Agent.snakeRef s) ≤ 400)%nat ∧
        0 ≤ Agent.score s ≤ 399).
Proof.
  split.
  - intros s Hs. pose proof (chatgpt_reachable_length s Hs) as Hlen.
    pose proof (chatgpt_reachable_inv s Hs) as I.
    pose proof (cinv_score s I) as Hscore. simpl in Hscore.
    pose proof (free_length (ChatGPT.snake s) (chatgpt_reachable_NoDup s Hs)
                  (cinv_grid s I)) as Hfree.
    split; [done |]. split; [lia |]. split; [lia |].
    split.
    + intros E. rewrite E in Hfree. simpl in Hfree. lia.
    + intros E. apply length_zero_iff_nil. lia.
  - intros s Hs. pose proof (agent_reachable_length s Hs) as Hlen.
    pose proof (ainv_score s (agent_reachable_inv s Hs)) as Hscore.
    split; [done | lia].
Qed.

(** When the snake covers the board the next tick is a game over, whatever
    the direction: in snake-game-chatgpt the run stops with the snake as it
    is, in snake-game-agent the game restarts.  A state of a mounted
    component is in this case as soon as its snake has 400 cells. *)
Theorem full_board_ends_game :
  (∀ r s,
     ChatGPT.snake s ≠ [] → ChatGPT.grid ⊆ ChatGPT.snake s →
     ∃ s', ChatGPT.tick r s = Some s' ∧
           ChatGPT.running s' = false ∧
           ChatGPT.snake s' = ChatGPT.snake s ∧
           ChatGPT.score s' = ChatGPT.score s) ∧
  (∀ rx ry s,
     Agent.snakeRef s ≠ [] → (∀ c, on_board c → c ∈ Agent.snakeRef s) →
     Agent.update rx ry s = Some (Agent.gameOver rx ry s)) ∧
  (∀ s, ChatGPT.reachable s → length (ChatGPT.snake s) = 400%nat →
        ChatGPT.grid ⊆ ChatGPT.snake s) ∧
  (∀ s, Agent.reachable s → length (Agent.snakeRef s) = 400%nat →
        ∀ c, on_board c → c ∈ Agent.snakeRef s).
Proof.
  split; [| split; [| split]].
  - intros r s Hne Hfull.
    destruct (ChatGPT.snake s) as [| head tl] eqn:Hsnake; [done |].
    eexists. split.
    + apply (chatgpt_tick_game_over r s head tl Hsnake).
      rewrite <- Hsnake in Hfull. apply Hfull, chatgpt_newHead_in_grid.
    + done.
  - intros rx ry s Hne Hfull.
    destruct (Agent.snakeRef s) as [| h0 tl] eqn:Hsnake; [done |].
    apply (agent_update_game_over rx ry s h0 tl Hsnake).
    rewrite <- Hsnake in Hfull. apply Hfull, agent_newHead_on_board.
  - intros s Hs Hlen. apply full_length_covers; [| | done].
    + by apply chatgpt_reachable_NoDup.
    + apply (cinv_grid s (chatgpt_reachable_inv s Hs)).
  - intros s Hs Hlen c Hc%on_board_grid. revert c Hc.
    apply full_length_covers; [| | done].
    + by apply agent_reachable_NoDup.
    + intros c Hc. by apply on_board_grid, (ainv_board s (agent_reachable_inv s Hs)).
Qed.


(** The same at sample inputs: a snake of snake-game-chatgpt that covers the
    grid, and the snake of snake-game-agent that has just eaten the apple on
    the last free cell of the board. *)
Lemma full_board_ends_game_witness :
  (∃ s', ChatGPT.tick half chatgpt_full_board = Some s' ∧
         ChatGPT.running s' = false) ∧
  (∃ s' s'', Agent.update half half agent_board_but_one = Some s' ∧
             length (Agent.snakeRef s') = 400%nat ∧
             Agent.update half half s' = Some s'' ∧
             Agent.snakeRef s'' = [ {| x := 10; y := 10 |} ] ∧
             Agent.score s'' = 0).
Proof.
  destruct full_board_ends_game as (Hc & Ha & _). split.
  - destruct (Hc half chatgpt_full_board) as (s' & Ht & Hr & _); [done | done |].
    by exists s'.
  - destruct (Agent.update half half agent_board_but_one) as [s' |] eqn:Hu;
      [| by vm_compute in Hu].
    vm_compute in Hu. injection Hu as <-.
    eexists. eexists. split; [reflexivity |]. split; [by vm_compute |].
    split.
    { apply Ha; [done |].
      intros c Hc'%on_board_grid. revert c Hc'. apply covers_grid. by vm_compute. }
    split; reflexivity.
Defined.

(** The board after the first meal of either component: 396 free cells at
    score 1 in snake-game-chatgpt, a snake of two cells in
    snake-game-agent. *)
Lemma snake_fits_board_witness :
  (∃ s, chatgpt_run [ChatGPT.ETick half] (ChatGPT.init draw_in_front no_store) = Some s ∧
        ChatGPT.score s = 1 ∧
        length (ChatGPT.free (ChatGPT.snake s)) = 396%nat) ∧
  (∃ s, agent_run (agent_to_first_apple ++ [Agent.EFrame half half])
                  (Agent.mount no_store) = Some s ∧
        0 ≤ Agent.score s ≤ 399).
Proof.
  destruct snake_fits_board as [Hc Ha]. split.
  - destruct (chatgpt_run [ChatGPT.ETick half] (ChatGPT.init draw_in_front no_store))
      as [s |] eqn:Hrun; [| by vm_compute in Hrun].
    assert (ChatGPT.reachable s) as Hs
      by (by eapply chatgpt_run_reachable; [apply ChatGPT.reachable_init |]).
    destruct (Hc s Hs) as (_ & _ & Hfree & _).
    assert (ChatGPT.score s = 1) as Hsc
      by (vm_compute in Hrun; by injection Hrun as <-).
    exists s. split; [done |]. split; [done | lia].
  - destruct (agent_run (agent_to_first_apple ++ [Agent.EFrame half half])
                (Agent.mount no_store)) as [s |] eqn:Hrun; [| by vm_compute in Hrun].
    assert (Agent.reachable s) as Hs
      by (by eapply agent_run_reachable; [apply Agent.reachable_mount |]).
    exists s. split; [done |]. by destruct (Ha s Hs) as (_ & ?).
Defined.


(** ** Pause, resume and the end of a game *)

Lemma chatgpt_stopped_ticks (rs : list Random) (s : ChatGPT.State) :
  ChatGPT.running s = false → chatgpt_run (ChatGPT.ETick <$> rs) s = Some s.
Proof.
  intros Hr. induction rs as [| r rs IH]; [done |].
  simpl. by rewrite Hr.
Qed.

Lemma agent_stopped_frames (draws : list (Random * Random)) (s : Agent.State) :
  Agent.running s = false →
  agent_run (uncurry Agent.EFrame <$> draws) s = Some s.
Proof.
  intros Hr. induction draws as [| [rx ry] draws IH]; [done |].
  simpl. unfold Agent.frame. by rewrite Hr.
Qed.

(** A stopped game stands still, and a pause loses nothing.  While [running]
    is false no number of ticks changes the state, in either component.  In
    snake-game-chatgpt a pause followed by a resume gives back the very same
    state; in snake-game-agent it gives back the same game, with nothing
    written to the store, and an animation loop that closes over the current
    score and high score. *)
Theorem stopped_game_stands_still :
  (∀ rs s, ChatGPT.running s = false →
           chatgpt_run (ChatGPT.ETick <$> rs) s = Some s) ∧
  (∀ s, chatgpt_run [ChatGPT.EPauseButton; ChatGPT.EPauseButton] s = Some s) ∧
  (∀ draws s, Agent.running s = false →
              agent_run (uncurry Agent.EFrame <$> draws) s = Some s) ∧
  (∀ s, agent_run [Agent.EPauseButton; Agent.EPauseButton] s =
        Some {| Agent.score := Agent.score s;
                Agent.scoreRef := Agent.scoreRef s;
                Agent.highScore := Agent.highScore s;
                Agent.running := Agent.running s;
                Agent.velocityRef := Agent.velocityRef s;
                Agent.snakeRef := Agent.snakeRef s;
                Agent.appleRef := Agent.appleRef s;
                Agent.speedRef := Agent.speedRef s;
                Agent.loop_score := Agent.score s;
                Agent.loop_highScore := Agent.highScore s;
                Agent.localStorage := Agent.localStorage s |}).
Proof.
  split; [apply chatgpt_stopped_ticks |]. split; [| split; [apply agent_stopped_frames |]].
  - intros s. destruct s as [? ? ? ? ? run ? ? ?]. by destruct run.
  - intros s. destruct s as [? ? ? run ? ? ? ? ? ? ?].
    unfold agent_run, Agent.step, Agent.commit, Agent.toggleRunning. simpl.
    rewrite !Z.eqb_refl. by destruct run.
Qed.

(** Three ticks on the game of snake-game-chatgpt that has just ended, and
    three frames on a paused snake-game-agent. *)
Lemma stopped_game_stands_still_witness :
  (∃ s, ChatGPT.tick half chatgpt_curled = Some s ∧
        chatgpt_run (ChatGPT.ETick <$> [half; quarter; half]) s = Some s) ∧
  (∃ s, Agent.step Agent.EPauseButton agent_square = Some s ∧
        agent_run (uncurry Agent.EFrame <$> [(half, half); (quarter, half)]) s = Some s).
Proof.
  destruct stopped_game_stands_still as (Hc & _ & Ha & _). split.
  - eexists. split; [reflexivity |]. by apply Hc.
  - eexists. split; [reflexivity |]. by apply Ha.
Defined.

(** A game of snake-game-chatgpt that has ended is not brought back by a
    resume alone.  After the tick that ended it the snake still stands
    before the cell it ran into and the direction is the one of that tick;
    with the space bar (or the Pause button) and no turn in between, the
    next tick ends the game again at once, with the same snake, score and
    high score, and one more write of the same value to the store. *)
Theorem chatgpt_resume_after_game_over (r r' : Random) (s s' : ChatGPT.State) :
  ChatGPT.running s = true →
  ChatGPT.tick r s = Some s' →
  ChatGPT.running s' = false →
  ChatGPT.snake s' = ChatGPT.snake s ∧
  ChatGPT.score s' = ChatGPT.score s ∧
  ChatGPT.highScore s' = Z.max (ChatGPT.highScore s) (ChatGPT.score s) ∧
  ∃ s'', chatgpt_run [ChatGPT.EPauseButton; ChatGPT.ETick r'] s' = Some s'' ∧
         chatgpt_run [ChatGPT.EKey ChatGPT.Space r'; ChatGPT.ETick r'] s' = Some s'' ∧
         ChatGPT.running s'' = false ∧
         ChatGPT.snake s'' = ChatGPT.snake s ∧
         ChatGPT.score s'' = ChatGPT.score s ∧
         ChatGPT.highScore s'' = ChatGPT.highScore s' ∧
         ChatGPT.localStorage s''
         = setItem (ChatGPT.highScore s') (ChatGPT.localStorage s').
Proof.
  intros Hrun Ht Hstop. unfold ChatGPT.tick in Ht.
  destruct (ChatGPT.snake s) as [| head tl] eqn:Hsnake; [done |].
  destruct (ChatGPT.hits (head :: tl) (ChatGPT.newHead head s)) eqn:Hhit.
  - injection Ht as <-. simpl. rewrite Hsnake.
    split; [done |]. split; [done |]. split; [done |].
    set (s1 := ChatGPT.toggleRunning
                 (ChatGPT.handleGameOver (ChatGPT.applyQueuedDir s))).
    assert (ChatGPT.tick r' s1
            = Some (ChatGPT.handleGameOver (ChatGPT.applyQueuedDir s1))) as Ht1.
    { apply (chatgpt_tick_game_over r' s1 head tl); [done |].
      apply hits_elem_of.
      change (ChatGPT.newHead head s1) with (ChatGPT.newHead head s).
      change (ChatGPT.snake s1) with (ChatGPT.snake s).
      rewrite Hsnake. exact Hhit. }
    eexists. split; [rewrite Ht1; reflexivity |].
    split; [rewrite Ht1; reflexivity |]. simpl.
    split; [done |]. split; [done |]. split; [done |].
    split; [lia |]. f_equal. lia.
  - repeat case_match; injection Ht as <-; simpl in Hstop; congruence.
Qed.

(** The curled snake of snake-game-chatgpt runs into itself; after a resume
    the next tick finds the game over again, at the same score. *)
Lemma chatgpt_resume_after_game_over_witness :
  ∃ s' s'', ChatGPT.tick half chatgpt_curled = Some s' ∧
            chatgpt_run [ChatGPT.EPauseButton; ChatGPT.ETick quarter] s' = Some s'' ∧
            ChatGPT.running s'' = false ∧
            ChatGPT.score s'' = 2.
Proof.
  destruct (ChatGPT.tick half chatgpt_curled) as [s' |] eqn:Ht;
    [| by vm_compute in Ht].
  destruct (chatgpt_resume_after_game_over half quarter chatgpt_curled s' eq_refl Ht)
    as (_ & _ & _ & s'' & Hp & _ & Hr & _ & Hsc & _).
  { vm_compute in Ht. by injection Ht as <-. }
  exists s', s''. by repeat split.
Defined.


(** ** The high score the animation loop of snake-game-agent sees *)

Section agent_loop.
Import Agent.

(** [update] leaves the loop's view and a running game running. *)
Lemma agent_update_loop (rx ry : Random) (s s1 : State) :
  update rx ry s = Some s1 →
  running s = true →
  running s1 = true ∧
  loop_score s1 = loop_score s ∧ loop_highScore s1 = loop_highScore s.
Proof.
  intros Hu Hrun. unfold update in Hu.
  destruct (snakeRef s) as [| h0 tl]; [done |].
  repeat case_match; injection Hu as <-; simpl; try done.
  unfold saveHighScore. by repeat case_match.
Qed.

(** The loop's view of [score] and [highScore] is replaced when an event
    changes [running], and only then. *)
Lemma agent_step_loop (e : Event) (s s' : State) :
  step e s = Some s' →
  if Bool.eqb (running s) (running s')
  then loop_score s' = loop_score s ∧ loop_highScore s' = loop_highScore s
  else loop_score s' = score s' ∧ loop_highScore s' = highScore s'.
Proof.
  intros Hstep. destruct e as [rx ry | k | | rx ry]; simpl in Hstep.
  - unfold frame in Hstep. destruct (running s) eqn:Hrun.
    + destruct (update rx ry s) as [s1 |] eqn:Hu; [| done].
      injection Hstep as <-.
      destruct (agent_update_loop rx ry s s1 Hu Hrun) as (Hrun1 & Hl & Hh).
      unfold commit. simpl. by rewrite Hrun, Hrun1.
    + injection Hstep as <-. by rewrite Hrun.
  - injection Hstep as <-. unfold commit, handleKey.
    destruct k; simpl; try (destruct (negb (_ =? _)); simpl);
      destruct (running s); by simpl.
  - injection Hstep as <-. unfold commit. simpl. destruct (running s); by simpl.
  - injection Hstep as <-. unfold commit, restartClick, saveHighScore.
    destruct (_ >? _); simpl; destruct (running s); by simpl.
Qed.

(** A snake of one cell does not run into itself. *)
Lemma agent_one_cell_safe (h0 : Point) (s : State) :
  on_board h0 → unit_dir (velocityRef s) → newHead h0 s ≠ h0.
Proof.
  intros [Hx Hy] Hv E.
  pose proof (f_equal x E) as Ex. pose proof (f_equal y E) as Ey.
  clear E. simpl in Ex, Ey. unfold wrap in Ex, Ey. change ROWS with 20 in *.
  apply unit_dir_cases in Hv as [Hv | [Hv | [Hv | Hv]]];
    rewrite Hv in Ex, Ey; simpl in Ex, Ey; repeat case_match; lia.
Qed.

(** The events that leave [running] as it is in a running game: all but the
    Pause button and the space bar. *)
Lemma agent_step_running (e : Event) (s s' : State) :
  e ≠ EPauseButton → e ≠ EKey Space →
  running s = true → step e s = Some s' → running s' = true.
Proof.
  intros Hp Hk Hrun Hstep. destruct e as [rx ry | k | | rx ry]; simpl in Hstep.
  - unfold frame in Hstep. rewrite Hrun in Hstep.
    destruct (update rx ry s) as [s1 |] eqn:Hu; [| done].
    injection Hstep as <-.
    by destruct (agent_update_loop rx ry s s1 Hu Hrun) as (Hrun1 & _).
  - injection Hstep as <-. destruct k; simpl; try done; by case_match.
  - done.
  - by injection Hstep as <-.
Qed.

Lemma agent_unpaused_run (es : list Event) (s s' : State) :
  Forall (λ e, e ≠ EPauseButton ∧ e ≠ EKey Space) es →
  running s = true →
  agent_run es s = Some s' →
  running s' = true ∧
  loop_score s' = loop_score s ∧ loop_highScore s' = loop_highScore s.
Proof.
  intros Hes. revert s. induction Hes as [| e es [Hp Hk] _ IH]; intros s Hrun Hr.
  - by injection Hr as <-.
  - simpl in Hr. destruct (step e s) as [s1 |] eqn:Hstep; [| done].
    simpl in Hr. pose proof (agent_step_running e s s1 Hp Hk Hrun Hstep) as Hrun1.
    pose proof (agent_step_loop e s s1 Hstep) as Hloop.
    rewrite Hrun, Hrun1 in Hloop. simpl in Hloop. destruct Hloop as [Hl Hh].
    destruct (IH s1 Hrun1 Hr) as (Hrun' & Hl' & Hh').
    split; [done |]. split; congruence.
Qed.

End agent_loop.

(** The game-over test of snake-game-agent compares the score with the high
    score its animation loop closed over, not with the current one.  The
    loop is installed anew, on the values of the current render, only by an
    event that changes [running]; every other event leaves its view as it
    is.  A game over happens at a score of at least 1 (a snake of one cell
    cannot run into itself), sets the high score and the stored value to the
    score when the score exceeds the loop's high score, and leaves them
    otherwise.  So in a session without a pause the loop is the one of the
    mount, whose high score is 0, and every game over replaces the high
    score and the stored value by the score just made, higher or not. *)
Theorem agent_game_over_uses_loop_view :
  (∀ e s s',
     Agent.step e s = Some s' →
     if Bool.eqb (Agent.running s) (Agent.running s')
     then Agent.loop_score s' = Agent.loop_score s ∧
          Agent.loop_highScore s' = Agent.loop_highScore s
     else Agent.loop_score s' = Agent.score s' ∧
          Agent.loop_highScore s' = Agent.highScore s') ∧
  (∀ rx ry s s' h0 tl,
     Agent.reachable s →
     Agent.running s = true →
     Agent.snakeRef s = h0 :: tl →
     Agent.newHead h0 s ∈ Agent.snakeRef s →
     Agent.step (Agent.EFrame rx ry) s = Some s' →
     1 ≤ Agent.score s ∧
     Agent.highScore s'
     = (if Agent.score s >? Agent.loop_highScore s
        then Agent.score s else Agent.highScore s) ∧
     stored (Agent.localStorage s') = Some (Agent.highScore s')) ∧
  (∀ st es s,
     Forall (λ e, e ≠ Agent.EPauseButton ∧ e ≠ Agent.EKey Agent.Space) es →
     agent_run es (Agent.mount st) = Some s →
     Agent.running s = true ∧
     Agent.loop_score s = 0 ∧ Agent.loop_highScore s = 0) ∧
  (∀ st es rx ry s s' h0 tl,
     Forall (λ e, e ≠ Agent.EPauseButton ∧ e ≠ Agent.EKey Agent.Space) es →
     agent_run es (Agent.mount st) = Some s →
     Agent.snakeRef s = h0 :: tl →
     Agent.newHead h0 s ∈ Agent.snakeRef s →
     Agent.step (Agent.EFrame rx ry) s = Some s' →
     Agent.highScore s' = Agent.score s ∧
     stored (Agent.localStorage s') = Some (Agent.score s)).
Proof.
  assert (∀ rx ry s s' h0 tl,
            Agent.reachable s →
            Agent.running s = true →
            Agent.snakeRef s = h0 :: tl →
            Agent.newHead h0 s ∈ Agent.snakeRef s →
            Agent.step (Agent.EFrame rx ry) s = Some s' →
            1 ≤ Agent.score s ∧
            Agent.highScore s'
            = (if Agent.score s >? Agent.loop_highScore s
               then Agent.score s else Agent.highScore s) ∧
            stored (Agent.localStorage s') = Some (Agent.highScore s')) as Hover.
  { intros rx ry s s' h0 tl Hs Hrun Hsnake Hin Hstep.
    pose proof (agent_reachable_inv s Hs) as I.
    assert (Agent.reachable s') as Hs' by (by eapply Agent.reachable_step).
    pose proof (ainv_stored s' (agent_reachable_inv s' Hs')) as Hst.
    assert (1 ≤ Agent.score s) as Hpos.
    { pose proof (ainv_score s I) as Hscore. rewrite Hsnake in Hscore.
      destruct tl as [| c tl]; [| simpl in Hscore; lia].
      rewrite Hsnake in Hin. apply list_elem_of_singleton in Hin.
      destruct (agent_one_cell_safe h0 s); [| apply (ainv_velocity s I) | done].
      apply (ainv_board s I). rewrite Hsnake. by left. }
    split; [done |]. split; [| done].
    simpl in Hstep. unfold Agent.frame in Hstep.
    rewrite Hrun, (agent_update_game_over rx ry s h0 tl Hsnake Hin) in Hstep.
    injection Hstep as <-. simpl.
    unfold Agent.saveHighScore. rewrite (ainv_scoreRef s I).
    destruct (Z.eqb_spec (Agent.score s) 0); [lia |]. by case_match. }
  split; [apply agent_step_loop |]. split; [exact Hover |].
  assert (∀ st es s,
            Forall (λ e, e ≠ Agent.EPauseButton ∧ e ≠ Agent.EKey Agent.Space) es →
            agent_run es (Agent.mount st) = Some s →
            Agent.running s = true ∧
            Agent.loop_score s = 0 ∧ Agent.loop_highScore s = 0) as Hmount.
  { intros st es s Hes Hr.
    by destruct (agent_unpaused_run es (Agent.mount st) s Hes eq_refl Hr)
      as (? & -> & ->). }
  split; [exact Hmount |].
  intros st es rx ry s s' h0 tl Hes Hr Hsnake Hin Hstep.
  destruct (Hmount st es s Hes Hr) as (Hrun & _ & Hloop).
  assert (Agent.reachable s) as Hs
    by (by eapply agent_run_reachable; [apply Agent.reachable_mount |]).
  destruct (Hover rx ry s s' h0 tl Hs Hrun Hsnake Hin Hstep) as (Hpos & Hh & Hst).
  rewrite Hloop in Hh.
  destruct (Z.gtb_spec (Agent.score s) 0); [| lia].
  by rewrite Hst, Hh.
Qed.

(** On a page that opens on a stored high score of 10, played without a
    pause: the snake eats the first apple and the player reverses with two
    key presses; the game over at score 1 puts 1 in place of 10. *)
Lemma agent_game_over_uses_loop_view_witness :
  ∃ s s',
    agent_run (agent_to_first_apple ++
               [ Agent.EFrame half half; Agent.EKey Agent.ArrowUp;
                 Agent.EKey Agent.ArrowRight ])
              (Agent.mount store_of_10) = Some s ∧
    Agent.step (Agent.EFrame half half) s = Some s' ∧
    Agent.highScore s = 10 ∧
    Agent.highScore s' = 1 ∧
    stored (Agent.localStorage s') = Some 1.
Proof.
  destruct agent_game_over_uses_loop_view as (_ & _ & _ & Hplay).
  destruct (agent_run (agent_to_first_apple ++
                       [ Agent.EFrame half half; Agent.EKey Agent.ArrowUp;
                         Agent.EKey Agent.ArrowRight ])
                      (Agent.mount store_of_10)) as [s |] eqn:Hrun;
    [| by vm_compute in Hrun].
  destruct (Agent.step (Agent.EFrame half half) s) as [s' |] eqn:Hstep;
    [| vm_compute in Hrun; injection Hrun as <-; by vm_compute in Hstep].
  assert (Agent.snakeRef s = [ {| x := 5; y := 5 |}; {| x := 6; y := 5 |} ] ∧
          Agent.velocityRef s = {| x := 1; y := 0 |} ∧
          Agent.score s = 1 ∧ Agent.highScore s = 10) as (Hsnake & Hv & Hsc & Hh)
    by (vm_compute in Hrun; by injection Hrun as <-).
  assert (Forall (λ e, e ≠ Agent.EPauseButton ∧ e ≠ Agent.EKey Agent.Space)
            (agent_to_first_apple ++
             [ Agent.EFrame half half; Agent.EKey Agent.ArrowUp;
               Agent.EKey Agent.ArrowRight ])) as Hes.
  { unfold agent_to_first_apple. simpl.
    repeat (apply Forall_cons; split; [by split |]). apply Forall_nil_2. }
  destruct (Hplay store_of_10 _ half half s s' _ _ Hes Hrun Hsnake) as [Hh' Hst'].
  - rewrite Hsnake. unfold Agent.newHead. rewrite Hv. simpl.
    rewrite !elem_of_cons. tauto.
  - exact Hstep.
  - exists s, s'. rewrite Hh', Hst', Hsc. by repeat split.
Defined.


(** ** Reloading the page *)

(** The high score on screen is the one a reload of the page would show.  In
    every state of a mounted component the stored entry holds the current
    high score: mounting the component again on the store as it stands gives
    the same high score (and, in snake-game-agent, leaves that value in the
    store after the two writes of its mount). *)
Theorem high_score_survives_reload :
  (∀ r s,
     ChatGPT.reachable s →
     ChatGPT.highScore (ChatGPT.init r (ChatGPT.localStorage s))
     = ChatGPT.highScore s) ∧
  (∀ s,
     Agent.reachable s →
     Agent.highScore (Agent.mount (Agent.localStorage s)) = Agent.highScore s ∧
     stored (Agent.localStorage (Agent.mount (Agent.localStorage s)))
     = Some (Agent.highScore s)).
Proof.
  split.
  - intros r s I%chatgpt_reachable_inv. simpl. symmetry. apply (cinv_high s I).
  - intros s I%agent_reachable_inv. pose proof (ainv_stored s I) as Hst.
    unfold Agent.mount, Agent.commit, getItem_or_0. simpl. rewrite Hst. simpl.
    split; [done |]. by destruct (Agent.highScore s).
Qed.

(** A page of snake-game-chatgpt that opened on a stored 10, after a tick,
    and the page of snake-game-agent on which a game over at score 1 has
    replaced the stored 10: a reload shows 10 and 1. *)
Lemma high_score_survives_reload_witness :
  (∃ s, chatgpt_run [ChatGPT.ETick half] (ChatGPT.init half store_of_10) = Some s ∧
        ChatGPT.highScore (ChatGPT.init quarter (ChatGPT.localStorage s)) = 10) ∧
  (∃ s, agent_run agent_short_run (Agent.mount store_of_10) = Some s ∧
        Agent.highScore (Agent.mount (Agent.localStorage s)) = 1).
Proof.
  destruct high_score_survives_reload as [Hc Ha]. split.
  - destruct (chatgpt_run [ChatGPT.ETick half] (ChatGPT.init half store_of_10))
      as [s |] eqn:Hrun; [| by vm_compute in Hrun].
    assert (ChatGPT.reachable s) as Hs
      by (by eapply chatgpt_run_reachable; [apply ChatGPT.reachable_init |]).
    exists s. split; [done |]. rewrite (Hc quarter s Hs).
    vm_compute in Hrun. by injection Hrun as <-.
  - destruct (agent_run agent_short_run (Agent.mount store_of_10))
      as [s |] eqn:Hrun; [| by vm_compute in Hrun].
    assert (Agent.reachable s) as Hs
      by (by eapply agent_run_reachable; [apply Agent.reachable_mount |]).
    exists s. split; [done |]. destruct (Ha s Hs) as (-> & _).
    vm_compute in Hrun. by injection Hrun as <-.
Defined.


(** ** The padding of a cell in binary64 *)

(** [drawCell] computes its padding as [Math.floor(size * 0.08)] in binary64,
    where 0.08 is not exact.  For every window width, on the cell size
    [updateCellSize] gives, the floor of the binary64 product is the floor of
    the exact product 8 * size / 100, so the padding is 1 pixel for cells of
    12 to 24 pixels and 2 pixels for cells of 25 to 28 pixels. *)
Theorem padding_exact_in_binary64 (innerWidth : Z) :
  let size := ChatGPTUI.updateCellSize innerWidth in
  ChatGPTUI.product_floor_is size (size * 8 / 100) = true ∧
  ChatGPTUI.pad size = (if size <? 25 then 1 else 2).
Proof.
  intros size. pose proof (updateCellSize_range innerWidth) as Hs. fold size in Hs.
  split.
  - rewrite <- (pad_matches_binary64 size Hs). reflexivity.
  - assert (size ∈ seqZ 12 17) as Hin by (apply elem_of_seqZ; lia).
    clearbody size. clear Hs. revert size Hin. apply Forall_forall.
    apply (bool_decide_unpack _). by vm_compute.
Qed.


(** ** No game ends before the first meal *)

Lemma chatgpt_newHead_next_cell (h : Point) (s : ChatGPT.State) :
  ChatGPT.newHead h s = next_cell h (ChatGPT.currentDir s).
Proof. unfold ChatGPT.newHead, next_cell. by rewrite !mod__modulo. Qed.

(** On the 20 by 20 grid a snake of three cells that lies along its way
    cannot step on itself without reversing: the cell before the head is at
    an odd number of steps from each of the three. *)
Lemma three_cells_no_hit (h b t cur d e : Point) :
  unit_dir cur → unit_dir d → unit_dir e → cur ≠ negate d →
  h ∈ ChatGPT.grid → b ∈ ChatGPT.grid → t ∈ ChatGPT.grid →
  h = next_cell b d → b = next_cell t e →
  next_cell h cur ∉ [h; b; t].
Proof.
  intros Hcur Hd He Hrev [Hhx Hhy]%elem_of_grid [Hbx Hby]%elem_of_grid
    [Htx Hty]%elem_of_grid Hh Hb.
  change ChatGPT.GRID_COLS with 20 in *. change ChatGPT.GRID_ROWS with 20 in *.
  pose proof (f_equal x Hh) as Hh1. pose proof (f_equal y Hh) as Hh2.
  pose proof (f_equal x Hb) as Hb1. pose proof (f_equal y Hb) as Hb2.
  clear Hh Hb. unfold next_cell in *. simpl in Hh1, Hh2, Hb1, Hb2.
  rewrite !elem_of_cons, elem_of_nil.
  intros [E | [E | [E | []]]];
    pose proof (f_equal x E) as E1; pose proof (f_equal y E) as E2; clear E;
    simpl in E1, E2;
    apply unit_dir_cases in Hcur as [-> | [-> | [-> | ->]]];
    apply unit_dir_cases in Hd as [-> | [-> | [-> | ->]]];
    try (by destruct Hrev);
    apply unit_dir_cases in He as [-> | [-> | [-> | ->]]];
    simpl in *; clear Hrev; Z.div_mod_to_equations; lia.
Qed.

Lemma chatgpt_step_on_its_way (e : ChatGPT.Event) (s s' : ChatGPT.State) :
  chatgpt_inv s → (3 ≤ length (ChatGPT.snake s))%nat →
  chatgpt_on_its_way s → ChatGPT.step e s = Some s' → chatgpt_on_its_way s'.
Proof.
  intros I Hlen J Hstep.
  assert (chatgpt_on_its_way (ChatGPT.resetGame half s)) as Jreset.
  { intros h b t [= <- <- <-]. split; [done |].
    exists {| x := 1; y := 0 |}. split; [auto with snake | done]. }
  destruct e as [r | k r | w | | r]; simpl in Hstep.
  - destruct (ChatGPT.running s); [| by injection Hstep as <-].
    destruct (ChatGPT.snake s) as [| h [| b [| t tl]]] eqn:Hsnake;
      [simpl in Hlen; lia .. |].
    destruct (decide (ChatGPT.newHead h s ∈ ChatGPT.snake s)) as [Hin | Hout].
    { rewrite (chatgpt_tick_game_over r s h _ Hsnake Hin) in Hstep.
      injection Hstep as <-. intros h' b' t' Hs'. simpl in Hs'.
      rewrite Hsnake in Hs'. injection Hs' as <- <- <- ->.
      destruct (J h b t Hsnake) as (Hh & e & He & Hb).
      pose proof (cinv_grid s I) as Hgrid. rewrite Hsnake in Hgrid.
      destruct (three_cells_no_hit h b t (ChatGPT.currentDir s) (ChatGPT.dir s) e);
        try done.
      - by apply chatgpt_currentDir_unit.
      - apply (cinv_dir s I).
      - unfold ChatGPT.currentDir.
        destruct (ChatGPT.nextDir s) as [d |] eqn:Hnext; simpl.
        + by apply (cinv_next s I).
        + apply unit_dir_not_self_opposite, (cinv_dir s I).
      - apply Hgrid. by left.
      - apply Hgrid. right. by left.
      - apply Hgrid. right. right. by left.
      - rewrite <- chatgpt_newHead_next_cell. by rewrite <- Hsnake. }
    destruct (decide (ChatGPT.newHead h s = ChatGPT.food s)) as [Heat | Hmove].
    + rewrite (chatgpt_tick_eat r s h _ Hsnake Hout Heat) in Hstep.
      injection Hstep as <-. intros h' b' t' Hs'. simpl in Hs'.
      by rewrite Hsnake in Hs'.
    + rewrite (chatgpt_tick_move r s h _ Hsnake Hout Hmove) in Hstep.
      injection Hstep as <-. intros h' b' t' Hs'. simpl in Hs'.
      rewrite Hsnake in Hs'. destruct tl as [| u tl].
      * injection Hs' as <- <- <-. simpl.
        destruct (J h b t Hsnake) as (Hh & _).
        split; [apply chatgpt_newHead_next_cell |].
        exists (ChatGPT.dir s). split; [apply (cinv_dir s I) | done].
      * apply (f_equal length) in Hs'. rewrite pop_length in Hs'. by simpl in Hs'.
  - injection Hstep as <-.
    destruct k; simpl; try done; try apply Jreset;
      unfold ChatGPT.trySetDir; by case_match.
  - injection Hstep as <-.
    destruct w; simpl; unfold ChatGPT.trySetDir; by case_match.
  - by injection Hstep as <-.
  - injection Hstep as <-. apply Jreset.
Qed.

Lemma chatgpt_reachable_on_its_way (s : ChatGPT.State) :
  ChatGPT.reachable s → chatgpt_on_its_way s.
Proof.
  induction 1 as [r st | e s s' Hs IH Hstep].
  - intros h b t [= <- <- <-]. split; [done |].
    exists {| x := 1; y := 0 |}. split; [auto with snake | done].
  - eapply chatgpt_step_on_its_way; [| | exact IH | exact Hstep].
    + by apply chatgpt_reachable_inv.
    + by apply chatgpt_reachable_length.
Qed.

(** No game of snake-game-chatgpt ends before the first meal.  In a state of
    a mounted component at score 0 the new head of a tick is never on the
    snake, whatever was requested: the guard of [trySetDir] keeps the head
    off the second cell, and on a grid of even size the third cell is not
    next to the head.  So every game over happens at a score of at least 1,
    and leaves a high score of at least 1. *)
Theorem chatgpt_no_game_over_before_first_meal :
  (∀ s h0 tl,
     ChatGPT.reachable s →
     ChatGPT.snake s = h0 :: tl →
     ChatGPT.newHead h0 s ∈ ChatGPT.snake s →
     1 ≤ ChatGPT.score s) ∧
  (∀ r s s',
     ChatGPT.reachable s →
     ChatGPT.running s = true →
     ChatGPT.step (ChatGPT.ETick r) s = Some s' →
     ChatGPT.running s' = false →
     1 ≤ ChatGPT.score s ∧ 1 ≤ ChatGPT.highScore s').
Proof.
  assert (∀ s h0 tl,
            ChatGPT.reachable s →
            ChatGPT.snake s = h0 :: tl →
            ChatGPT.newHead h0 s ∈ ChatGPT.snake s →
            1 ≤ ChatGPT.score s) as Hhit.
  { intros s h0 tl Hs Hsnake Hin.
    pose proof (chatgpt_reachable_inv s Hs) as I.
    pose proof (chatgpt_reachable_length s Hs) as Hlen.
    pose proof (cinv_score s I) as Hscore. simpl in Hscore.
    destruct (decide (length (ChatGPT.snake s) = 3%nat)) as [E | ?]; [| lia].
    exfalso. rewrite Hsnake in E.
    destruct tl as [| b [| t [| u tl]]]; try done.
    destruct (chatgpt_reachable_on_its_way s Hs h0 b t Hsnake) as (Hh & e & He & Hb).
    pose proof (cinv_grid s I) as Hgrid. rewrite Hsnake in Hgrid.
    destruct (three_cells_no_hit h0 b t (ChatGPT.currentDir s) (ChatGPT.dir s) e);
      try done.
    - by apply chatgpt_currentDir_unit.
    - apply (cinv_dir s I).
    - unfold ChatGPT.currentDir.
      destruct (ChatGPT.nextDir s) as [d |] eqn:Hnext; simpl.
      + by apply (cinv_next s I).
      + apply unit_dir_not_self_opposite, (cinv_dir s I).
    - apply Hgrid. by left.
    - apply Hgrid. right. by left.
    - apply Hgrid. right. right. by left.
    - rewrite <- chatgpt_newHead_next_cell. by rewrite <- Hsnake. }
  split; [exact Hhit |].
  intros r s s' Hs Hrun Hstep Hstop. simpl in Hstep. rewrite Hrun in Hstep.
  destruct (ChatGPT.snake s) as [| h0 tl] eqn:Hsnake;
    [by destruct (cinv_snake s (chatgpt_reachable_inv s Hs)) |].
  destruct (decide (ChatGPT.newHead h0 s ∈ ChatGPT.snake s)) as [Hin | Hout].
  - pose proof (Hhit s h0 tl Hs Hsnake Hin) as Hsc. split; [done |].
    rewrite (chatgpt_tick_game_over r s h0 tl Hsnake Hin) in Hstep.
    injection Hstep as <-. simpl. lia.
  - exfalso. unfold ChatGPT.tick in Hstep. rewrite Hsnake in Hstep.
    apply hits_false in Hout. unfold ChatGPT.hits in Hstep.
    rewrite Hsnake in Hout. rewrite Hout in Hstep.
    case_match; injection Hstep as <-; simpl in Hstop; congruence.
Qed.

(** The shortest way to a game over from a fresh page: eat the food in front
    of the head, then turn down, left and up into the cell of the tail; the
    game ends at score 1 and the high score becomes 1. *)
Lemma chatgpt_no_game_over_before_first_meal_witness :
  ∃ s s', chatgpt_run chatgpt_short_run (ChatGPT.init draw_in_front no_store) = Some s ∧
          ChatGPT.step (ChatGPT.ETick half) s = Some s' ∧
          ChatGPT.running s' = false ∧
          ChatGPT.score s = 1 ∧
          1 ≤ ChatGPT.highScore s'.
Proof.
  destruct chatgpt_no_game_over_before_first_meal as [_ Hover].
  destruct (chatgpt_run chatgpt_short_run (ChatGPT.init draw_in_front no_store))
    as [s |] eqn:Hrun; [| by vm_compute in Hrun].
  assert (ChatGPT.reachable s) as Hs
    by (by eapply chatgpt_run_reachable; [apply ChatGPT.reachable_init |]).
  destruct (ChatGPT.step (ChatGPT.ETick half) s) as [s' |] eqn:Hstep;
    [| vm_compute in Hrun; injection Hrun as <-; by vm_compute in Hstep].
  assert (ChatGPT.running s = true ∧ ChatGPT.score s = 1) as [Hr Hsc]
    by (vm_compute in Hrun; by injection Hrun as <-).
  assert (ChatGPT.running s' = false) as Hstop.
  { vm_compute in Hrun. injection Hrun as <-.
    vm_compute in Hstep. by injection Hstep as <-. }
  destruct (Hover half s s' Hs Hr Hstep Hstop) as [_ Hhigh].
  exists s, s'. by repeat split.
Defined.
